(** * rosbag-tools: the bag splitter ([rosbag_tools/split/splitter.py])

    A shallow embedding of the class [BagSplitter] and the properties of
    its method [split_rosbag].

    Conventions of the embedding.
    - Python [int] values (nanosecond timestamps, counters) are [Z] or [nat].
    - Python [float] values (the relative split offsets, and everything
      computed from them) are binary64 numbers, here primitive floats:
      [ts * 1e9] and [time_ns + self._bag_start] round to the nearest
      double as they do in CPython, and an [int] operand of a mixed sum is
      first converted to a double.  Comparisons between an [int] and a
      [float] are exact in Python, and they are exact here.
    - A raised exception is a value of [exn]; every method runs in a small
      state-and-exception monad [M] over the splitter object, the file
      system and the output logs written so far.
    - The [rosbags] readers and writers and [pathlib] are libraries the
      source calls; the part of their behaviour the splitter relies on is
      modelled in the modules [pathlib] and [rosbags] below. *)

From Stdlib Require Import Floats.PrimFloat Floats.FloatOps Floats.SpecFloat.
From Stdlib Require Import ZArith Lia Ascii.
From stdpp Require Import base gmap list sorting strings pretty.

Open Scope Z_scope.

(** ** pathlib *)

Module pathlib.

(** A path is its directory part and its final component, which holds no
    separator and is empty for the paths ['.'], [''] and ['/']. *)
Record Path := mkPath { parent : string; name : string }.

#[global] Instance Path_eq_dec : EqDecision Path.
Proof. solve_decision. Defined.

#[global] Instance Path_countable : Countable Path :=
  inj_countable' (λ p, (parent p, name p)) (λ q, mkPath q.1 q.2)
                 (λ p, match p with mkPath _ _ => eq_refl end).

(** [(s[:i], s[i:])] for [i = s.rfind(c)]; [None] when [c] does not
    occur in [s]. *)
Fixpoint rsplit (c : Ascii.ascii) (s : string) : option (string * string) :=
  match s with
  | EmptyString => None
  | String a s' =>
      match rsplit c s' with
      | Some (l, r) => Some (String a l, r)
      | None => if Ascii.eqb a c then Some (EmptyString, s) else None
      end
  end.

(** [PurePath.stem] and [PurePath.suffix]: the final component is cut at
    its last dot [i], provided [0 < i < len(name) - 1]. *)
Definition split_name (n : string) : string * string :=
  match rsplit "."%char n with
  | Some (l, r) =>
      if bool_decide (l ≠ EmptyString ∧ 1 < String.length r)%nat
      then (l, r) else (n, EmptyString)
  | None => (n, EmptyString)
  end.

Definition stem (p : Path) : string := (split_name (name p)).1.
Definition suffix (p : Path) : string := (split_name (name p)).2.

(** The path next to [p] whose final component is [n]: what
    [p.with_name(n)] returns when it returns. *)
Definition replace_name (p : Path) (n : string) : Path :=
  {| parent := parent p; name := n |}.

(** What a path refers to on disk.  A directory is kept with the names of
    its entries, so that [shutil.rmtree] is the removal of one node. *)
Inductive node :=
| RegularFile
| Directory (entries : list string).

Definition exists_ (disk : gmap Path node) (p : Path) : bool :=
  bool_decide (is_Some (disk !! p)).

Definition is_file (disk : gmap Path node) (p : Path) : bool :=
  match disk !! p with Some RegularFile => true | _ => false end.

Definition is_dir (disk : gmap Path node) (p : Path) : bool :=
  match disk !! p with Some (Directory _) => true | _ => false end.

Definition endswith (s suf : string) : bool :=
  bool_decide (String.length suf ≤ String.length s)%nat
  && bool_decide (String.substring (String.length s - String.length suf)
                            (String.length suf) s = suf).

(** [path.glob("*" + ext)]: the entries of the directory whose name ends
    with [ext]; nothing when the path is not a directory. *)
Definition glob_star (disk : gmap Path node) (p : Path) (ext : string)
  : list string :=
  match disk !! p with
  | Some (Directory entries) => filter (λ e, endswith e ext = true) entries
  | _ => []
  end.

End pathlib.
Import pathlib.

(** ** The exceptions the splitter can end with

    [ValueError p] is the one [delete_rosbag] raises, [ValueErrorEmptyName p]
    the [ValueError] of pathlib's [with_name] on a path with an empty name;
    [OverflowError] is raised when an [int] too large for a [float] meets
    one in a sum. *)

Inductive bound_side := AfterStart | BeforeEnd.

Inductive exists_reason := SameAsInput | AlreadyExists.

Inductive exn :=
| TypeError (msg : string)
| FileNotFoundError (p : Path)
| InvalidTimestampError (side : bound_side) (time_ns : float) (limit : Z)
| FileExistsError (why : exists_reason) (p : Path)
| ValueError (p : Path)
| ValueErrorEmptyName (p : Path)
| OverflowError
| NotImplementedError
| AttributeError (attr : string)
| KeyError (key : nat)
| IndexError.

(** ** rosbags: connections, readers and writers *)

Module rosbags.

Definition bytes := list Byte.byte.

(** [ConnectionExtRosbag1] and [ConnectionExtRosbag2]. *)
Inductive ConnectionExt :=
| ConnectionExtRosbag1 (callerid : option string) (latching : option Z)
| ConnectionExtRosbag2 (serialization_format : string)
                       (offered_qos_profiles : string).

Record Connection := {
  id : nat;
  topic : string;
  msgtype : string;
  msgdef : string;
  md5sum : string;
  ext : ConnectionExt
}.

(** An opened input log: what [Reader(path)] gives access to.
    [messages] is the sequence [reader.messages()] yields. *)
Record Reader := {
  start_time : Z;
  end_time : Z;
  duration : Z;
  connections : list Connection;
  messages : list (Connection * Z * bytes)
}.

Definition message_count (r : Reader) : nat := length (messages r).

Inductive ReaderClass := Reader1 | Reader2.
Inductive WriterClass := Writer1 | Writer2.

(** What [writer.add_connection] was called with. *)
Inductive Channel :=
| Channel1 (topic msgtype msgdef md5sum : string)
           (callerid : option string) (latching : option Z)
| Channel2 (topic msgtype serialization_format offered_qos_profiles : string).

Definition channel_topic (c : Channel) : string :=
  match c with
  | Channel1 t _ _ _ _ _ => t
  | Channel2 t _ _ _ => t
  end.

(** An output log.  The connection a writer hands out is identified by
    its position in [log_connections]. *)
Record OutLog := {
  log_path : Path;
  log_class : WriterClass;
  log_connections : list Channel;
  log_messages : list (nat * Z * bytes);
  log_closed : bool
}.

Definition new_log (W : WriterClass) (p : Path) : OutLog :=
  {| log_path := p; log_class := W; log_connections := [];
     log_messages := []; log_closed := false |}.

Definition log_add_connection (c : Channel) (l : OutLog) : OutLog :=
  {| log_path := log_path l; log_class := log_class l;
     log_connections := log_connections l ++ [c];
     log_messages := log_messages l; log_closed := log_closed l |}.

Definition log_write (m : nat * Z * bytes) (l : OutLog) : OutLog :=
  {| log_path := log_path l; log_class := log_class l;
     log_connections := log_connections l;
     log_messages := log_messages l ++ [m]; log_closed := log_closed l |}.

Definition log_close (l : OutLog) : OutLog :=
  {| log_path := log_path l; log_class := log_class l;
     log_connections := log_connections l;
     log_messages := log_messages l; log_closed := true |}.

(** What opening a writer leaves on disk: one file for a ROS 1 bag, a
    directory holding [<name>.db3] for a ROS 2 bag. *)
Definition node_of_log (W : WriterClass) (p : Path) : node :=
  match W with
  | Writer1 => RegularFile
  | Writer2 => Directory [name p +:+ ".db3"]
  end.

End rosbags.
Import rosbags.

(** ** The splitter object and the monad of its methods *)

Record BagSplitter := {
  _bag_start : Z;
  _bag_end : Z;
  _bag_duration : Z;
  _is_ros1_reader : option bool;
  _is_ros1_writer : option bool;
  _inbag : Path
}.

(** The state the methods run in: the object [self], the file system, and
    every writer object created so far, in order of creation.  A writer is
    referred to by its position in [logs]. *)
Record State := {
  self : BagSplitter;
  disk : gmap Path node;
  logs : list OutLog
}.

Inductive result (A : Type) :=
| Return (a : A)
| Raise (e : exn).
Arguments Return {A} a.
Arguments Raise {A} e.

Definition M (A : Type) : Type := State → result A * State.

#[global] Instance M_ret : MRet M := λ A a σ, (Return a, σ).
#[global] Instance M_bind : MBind M := λ A B k m σ,
  match m σ with
  | (Return a, σ') => k a σ'
  | (Raise e, σ') => (Raise e, σ')
  end.

Definition raise {A} (e : exn) : M A := λ σ, (Raise e, σ).
Definition get : M State := λ σ, (Return σ, σ).
Definition modify (f : State → State) : M unit := λ σ, (Return tt, f σ).

Definition set_self (f : BagSplitter → BagSplitter) (σ : State) : State :=
  {| self := f (self σ); disk := disk σ; logs := logs σ |}.
Definition set_disk (f : gmap Path node → gmap Path node) (σ : State) : State :=
  {| self := self σ; disk := f (disk σ); logs := logs σ |}.
Definition set_logs (f : list OutLog → list OutLog) (σ : State) : State :=
  {| self := self σ; disk := disk σ; logs := f (logs σ) |}.

Definition set_is_ros1_reader (b : bool) (s : BagSplitter) : BagSplitter :=
  {| _bag_start := _bag_start s; _bag_end := _bag_end s;
     _bag_duration := _bag_duration s;
     _is_ros1_reader := Some b; _is_ros1_writer := _is_ros1_writer s;
     _inbag := _inbag s |}.
Definition set_is_ros1_writer (b : bool) (s : BagSplitter) : BagSplitter :=
  {| _bag_start := _bag_start s; _bag_end := _bag_end s;
     _bag_duration := _bag_duration s;
     _is_ros1_reader := _is_ros1_reader s; _is_ros1_writer := Some b;
     _inbag := _inbag s |}.

(** The writer operations, on the writer at position [w]. *)
Definition Writer_new (W : WriterClass) (p : Path) : M nat :=
  λ σ, (Return (length (logs σ)), set_logs (λ ls, ls ++ [new_log W p]) σ).

Definition Writer_open (w : nat) : M unit :=
  λ σ, match logs σ !! w with
       | Some l =>
           (Return tt,
            set_disk (insert (log_path l) (node_of_log (log_class l) (log_path l))) σ)
       | None => (Return tt, σ)
       end.

Definition Writer_add_connection (w : nat) (c : Channel) : M nat :=
  λ σ, match logs σ !! w with
       | Some l =>
           (Return (length (log_connections l)),
            set_logs (alter (log_add_connection c) w) σ)
       | None => (Return 0%nat, σ)
       end.

Definition Writer_write (w : nat) (c : nat) (timestamp : Z) (data : bytes)
  : M unit :=
  modify (set_logs (alter (log_write (c, timestamp, data)) w)).

Definition Writer_close (w : nat) : M unit :=
  modify (set_logs (alter log_close w)).

(** ** Python control flow *)

(** [for x in l: body], with the local variables the body assigns passed
    along as [s]; a raised exception ends the loop. *)
Fixpoint for_in {A S} (l : list A) (body : A → S → M S) (s : S) : M S :=
  match l with
  | [] => mret s
  | x :: l' => s' ← body x s; for_in l' body s'
  end.

(** Iterating over a value that may be [None]. *)
Definition iter {A} (o : option (list A)) : M (list A) :=
  match o with
  | Some l => mret l
  | None => raise (TypeError "'NoneType' object is not iterable")
  end.

(** [l[i]] and [d[k]]. *)
Definition getitem {A} (l : list A) (i : nat) : M A :=
  match l !! i with
  | Some x => mret x
  | None => raise IndexError
  end.

Definition getkey (d : gmap nat nat) (k : nat) : M nat :=
  match d !! k with
  | Some v => mret v
  | None => raise (KeyError k)
  end.

Definition truthy (o : option bool) : bool := default false o.

(** A value computed without touching the state. *)
Definition of_result {A} (r : result A) : M A := λ σ, (r, σ).

(** [p.with_name(n)]: pathlib refuses a path that has no final component
    (['.'], [''], ['/']) with a [ValueError]. *)
Definition with_name (p : Path) (n : string) : M Path :=
  if bool_decide (name p = EmptyString) then raise (ValueErrorEmptyName p)
  else mret (replace_name p n).

(** ** Python numbers *)

(** The conversion an arithmetic operator applies to an [int] operand next
    to a [float]: the nearest double, ties to even, and [OverflowError]
    when the integer is beyond the doubles. *)
Definition float_of_int (z : Z) : result float :=
  let f := SF2Prim (binary_normalize prec emax z 0 false) in
  if PrimFloat.is_infinity f then Raise OverflowError else Return f.

(** The order between a [float] and an [int].  Python compares the two
    exact values; not-a-number is in no order with anything. *)
Definition float_cmp_int (f : float) (z : Z) : option comparison :=
  match Prim2SF f with
  | S754_nan => None
  | S754_infinity s => Some (if s then Lt else Gt)
  | S754_zero _ => Some (0 ?= z)
  | S754_finite s m e =>
      let v := if s then Zneg m else Zpos m in
      Some (if 0 <=? e then (v * 2 ^ e ?= z) else (v ?= z * 2 ^ (- e)))
  end.

(** [f < z], [f > z] and [z <= f]. *)
Definition float_lt_int (f : float) (z : Z) : bool :=
  match float_cmp_int f z with Some Lt => true | _ => false end.
Definition float_gt_int (f : float) (z : Z) : bool :=
  match float_cmp_int f z with Some Gt => true | _ => false end.
Definition int_le_float (z : Z) (f : float) : bool :=
  match float_cmp_int f z with Some Gt | Some Eq => true | _ => false end.

(** [f + z] and [z + f]. *)
Definition float_add_int (f : float) (z : Z) : result float :=
  match float_of_int z with
  | Return x => Return (f + x)%float
  | Raise e => Raise e
  end.
Definition int_add_float (z : Z) (f : float) : result float :=
  match float_of_int z with
  | Return x => Return (x + f)%float
  | Raise e => Raise e
  end.

(** An element of the list [timestamps] of [split_rosbag]: the converted
    offsets are floats, the appended [self._bag_end] is an int. *)
Inductive number :=
| PyInt (z : Z)
| PyFloat (f : float).

(** [z <= n] and [z + n] for an int [z]. *)
Definition int_le (z : Z) (n : number) : bool :=
  match n with
  | PyInt y => bool_decide (z ≤ y)
  | PyFloat f => int_le_float z f
  end.
Definition int_add (z : Z) (n : number) : result number :=
  match n with
  | PyInt y => Return (PyInt (z + y))
  | PyFloat f =>
      match int_add_float z f with
      | Return x => Return (PyFloat x)
      | Raise e => Raise e
      end
  end.

(** ** The methods of [BagSplitter] *)

(** [__init__] with the [inbag] setter: [bag] is the content of the log at
    [path]. *)
Definition BagSplitter_init (path : Path) (bag : Reader)
    (files : gmap Path node) : result BagSplitter :=
  if negb (exists_ files path) then Raise (FileNotFoundError path)
  else Return {| _bag_start := start_time bag;
                 _bag_end := end_time bag;
                 _bag_duration := duration bag;
                 _is_ros1_reader := Some (bool_decide (suffix path = ".bag"));
                 _is_ros1_writer := None;
                 _inbag := path |}.

Definition total_duration (s : BagSplitter) : Z := _bag_duration s.

Definition get_reader_class (filename : Path) : M ReaderClass :=
  let is_ros1 := bool_decide (suffix filename = ".bag") in
  modify (set_self (set_is_ros1_reader is_ros1));;
  mret (if is_ros1 then Reader1 else Reader2).

Definition get_writer_class (filename : Path) : M WriterClass :=
  let is_ros1 := bool_decide (suffix filename = ".bag") in
  modify (set_self (set_is_ros1_writer is_ros1));;
  mret (if is_ros1 then Writer1 else Writer2).

Definition unlink (path : Path) : M unit := modify (set_disk (delete path)).
Definition rmtree (path : Path) : M unit := modify (set_disk (delete path)).

Definition delete_rosbag (path : Path) : M unit :=
  σ ← get;
  let is_ros1 := is_file (disk σ) path && bool_decide (suffix path = ".bag") in
  let is_ros2 :=
    is_dir (disk σ) path
    && bool_decide (0 < length (glob_star (disk σ) path ".db3"))%nat in
  if is_ros1 then unlink path
  else if is_ros2 then rmtree path
  else raise (ValueError path).

(** The body of [for ts in timestamps]. *)
Definition check_cutoff_body (ts : float) (_ : unit) : M unit :=
  let time_ns := (ts * 1e9)%float in
  σ ← get;
  let bag_start := _bag_start (self σ) in
  let bag_end := _bag_end (self σ) in
  t ← of_result (float_add_int time_ns bag_start);
  if float_lt_int t bag_start then
    raise (InvalidTimestampError AfterStart time_ns bag_start)
  else
    t' ← of_result (float_add_int time_ns bag_start);
    if float_gt_int t' bag_end then
      raise (InvalidTimestampError BeforeEnd time_ns bag_end)
    else mret tt.

Definition _check_cutoff_limits (timestamps : option (list float)) : M unit :=
  l ← iter timestamps;
  for_in l check_cutoff_body tt.

Definition _check_export_path (export_path : Path) (force_out : bool) : M unit :=
  σ ← get;
  if bool_decide (export_path = _inbag (self σ)) then
    raise (FileExistsError SameAsInput export_path)
  else if exists_ (disk σ) export_path && negb force_out then
    raise (FileExistsError AlreadyExists export_path)
  else if exists_ (disk σ) export_path && force_out then
    delete_rosbag export_path
  else mret tt.

Definition bookkeeping_topic : string := "/events/write_split".

(** The body of [for conn in connections], with [conn_map] passed along. *)
Definition add_writer_connection (writer : nat) (conn : Connection)
    (conn_map : gmap nat nat) : M (gmap nat nat) :=
  if bool_decide (topic conn = bookkeeping_topic) then mret conn_map
  else
    σ ← get;
    if truthy (_is_ros1_writer (self σ)) then
      match ext conn with
      | ConnectionExtRosbag1 callerid latching =>
          c ← Writer_add_connection writer
                (Channel1 (topic conn) (msgtype conn) (msgdef conn)
                          (md5sum conn) callerid latching);
          mret (<[id conn := c]> conn_map)
      | ConnectionExtRosbag2 _ _ => raise (AttributeError "callerid")
      end
    else
      match ext conn with
      | ConnectionExtRosbag2 serialization_format offered_qos_profiles =>
          c ← Writer_add_connection writer
                (Channel2 (topic conn) (msgtype conn)
                          serialization_format offered_qos_profiles);
          mret (<[id conn := c]> conn_map)
      | ConnectionExtRosbag1 _ _ =>
          raise (AttributeError "serialization_format")
      end.

Definition set_writer_connections (writer : nat) (connections : list Connection)
  : M (gmap nat nat) :=
  for_in connections (add_writer_connection writer) ∅.

(** The local variables of [split_rosbag] that live across the loop. *)
Record Locals := {
  timestamps : list number;
  outbag_ctr : nat;
  export_path : Path;
  writer : nat;
  conn_map : gmap nat nat;
  s_cliptstamp : Z;
  e_cliptstamp : number
}.

(** The name [base_path.stem + str(outbag_ctr) + base_path.suffix] and the
    path that [base_path.with_name] makes of it. *)
Definition numbered_name (base_path : Path) (outbag_ctr : nat) : string :=
  stem base_path +:+ pretty outbag_ctr +:+ suffix base_path.
Definition numbered (base_path : Path) (outbag_ctr : nat) : Path :=
  replace_name base_path (numbered_name base_path outbag_ctr).

(** The body of [for conn, timestamp, data in reader.messages()]. *)
Definition split_step (reader : Reader) (outbag_path base_path : Path)
    (force_out : bool) (msg : Connection * Z * bytes) (v : Locals) : M Locals :=
  let '(conn, timestamp, data) := msg in
  if bool_decide (s_cliptstamp v ≤ timestamp)
     && int_le timestamp (e_cliptstamp v) then
    c ← getkey (conn_map v) (id conn);
    Writer_write (writer v) c timestamp data;;
    mret v
  else
    let outbag_ctr' := (outbag_ctr v + 1)%nat in
    let s_cliptstamp' := timestamp in
    σ ← get;
    t ← getitem (timestamps v) (outbag_ctr' - 1);
    e_cliptstamp' ← of_result (int_add (_bag_start (self σ)) t);
    export_path' ← with_name base_path (numbered_name base_path outbag_ctr');
    _check_export_path export_path' force_out;;
    Writer_close (writer v);;
    W ← get_writer_class outbag_path;
    writer' ← Writer_new W export_path';
    Writer_open writer';;
    conn_map' ← set_writer_connections writer' (connections reader);
    mret {| timestamps := timestamps v; outbag_ctr := outbag_ctr';
            export_path := export_path'; writer := writer';
            conn_map := conn_map'; s_cliptstamp := s_cliptstamp';
            e_cliptstamp := e_cliptstamp' |}.

(** [split_rosbag]; [reader] is the log that [Reader(self._inbag)] opens.
    The value returned is the local variables when the method ends (the
    Python method returns [None] after printing [outbag_ctr]). *)
Definition split_rosbag (reader : Reader) (timestamps0 : option (list float))
    (outbag_path : Path) (force_out : bool) : M Locals :=
  _check_cutoff_limits timestamps0;;
  σ ← get;
  _ ← get_reader_class (_inbag (self σ));
  let base_path := outbag_path in
  export_path1 ← with_name base_path (numbered_name base_path 1);
  _check_export_path export_path1 force_out;;
  W ← get_writer_class export_path1;
  σ ← get;
  if bool_decide (_is_ros1_reader (self σ) ≠ _is_ros1_writer (self σ)) then
    raise NotImplementedError
  else
    writer1 ← Writer_new W export_path1;
    Writer_open writer1;;
    conn_map1 ← set_writer_connections writer1 (connections reader);
    l ← iter timestamps0;
    let timestamps' :=
      (PyFloat <$> ((λ ts, ts * 1e9)%float <$> l))
      ++ [PyInt (_bag_end (self σ))] in
    t ← getitem timestamps' 0;
    e_cliptstamp1 ← of_result (int_add (_bag_start (self σ)) t);
    v ← for_in (messages reader)
          (split_step reader outbag_path base_path force_out)
          {| timestamps := timestamps'; outbag_ctr := 1;
             export_path := export_path1; writer := writer1;
             conn_map := conn_map1;
             s_cliptstamp := _bag_start (self σ);
             e_cliptstamp := e_cliptstamp1 |};
    Writer_close (writer v);;
    mret v.

(** Running a method of the object [this] on the files [files], with no
    writer created yet. *)
Definition initially (this : BagSplitter) (files : gmap Path node) : State :=
  {| self := this; disk := files; logs := [] |}.

(** ** Vocabulary of the statements *)

(** The last character of a string. *)
Fixpoint last_char (s : string) : option Ascii.ascii :=
  match s with
  | EmptyString => None
  | String a EmptyString => Some a
  | String _ s' => last_char s'
  end.

(** A node that [delete_rosbag] recognises as a log: a file whose name
    ends in [.bag], or a directory with an entry ending in [.db3]. *)
Definition is_rosbag (p : Path) (n : node) : bool :=
  match n with
  | RegularFile => bool_decide (suffix p = ".bag")
  | Directory entries => existsb (λ e, endswith e ".db3") entries
  end.

(** The container family a path stands for: [true] for the single-file
    family (suffix [.bag]), [false] for the directory family. *)
Definition family (p : Path) : bool := bool_decide (suffix p = ".bag").

(** ** Example recordings *)

(** Seconds to the nanoseconds of the log. *)
Definition sec (n : Z) : Z := n * 1000000000.

Definition ex_inbag : Path := mkPath "/data" "drive.bag".
Definition ex_outbag : Path := mkPath "/data/parts" "part.bag".

Definition ex_imu : Connection :=
  {| id := 0; topic := "/imu"; msgtype := "sensor_msgs/msg/Imu";
     msgdef := "std_msgs/Header header"; md5sum := "6a62c6daae103f4ff57a132d6f95cec2";
     ext := ConnectionExtRosbag1 None (Some 0) |}.

Definition ex_split_events : Connection :=
  {| id := 1; topic := "/events/write_split";
     msgtype := "rosbag2_interfaces/msg/WriteSplitEvent";
     msgdef := ""; md5sum := "";
     ext := ConnectionExtRosbag1 None (Some 0) |}.

(** A recording spanning [[0, 100]] seconds on one channel, with messages
    at the given times. *)
Definition ex_reader (times : list Z) : Reader :=
  {| start_time := 0; end_time := sec 100; duration := sec 100;
     connections := [ex_imu];
     messages := (λ t, (ex_imu, t, [Byte.x2a])) <$> times |}.

Definition ex_files : gmap Path node := {[ ex_inbag := RegularFile ]}.

Definition ex_this : BagSplitter :=
  {| _bag_start := 0; _bag_end := sec 100; _bag_duration := sec 100;
     _is_ros1_reader := Some true; _is_ros1_writer := None;
     _inbag := ex_inbag |}.

Definition ex_state : State := initially ex_this ex_files.

(** The routing map has an entry for exactly the connections of [conns]
    that are not on the bookkeeping topic. *)
Definition routes_exactly (conns : list Connection) (cm : gmap nat nat) : Prop :=
  ∀ i, is_Some (cm !! i)
       ↔ ∃ c, c ∈ conns ∧ id c = i ∧ topic c ≠ bookkeeping_topic.

(** No output log has a channel on the bookkeeping topic. *)
Definition bookkeeping_free (σ : State) : Prop :=
  Forall (λ l, Forall (λ ch, channel_topic ch ≠ bookkeeping_topic)
                      (log_connections l)) (logs σ).

(** A computation keeps a property of the state, however it ends. *)
Definition preserves {A} (P : State → Prop) (m : M A) : Prop :=
  ∀ σ, P σ → P (m σ).2.

(** The family an [ext] record belongs to. *)
Definition ext_family (e : ConnectionExt) : bool :=
  match e with
  | ConnectionExtRosbag1 _ _ => true
  | ConnectionExtRosbag2 _ _ => false
  end.

(** The channel of an output log that carries a source connection
    verbatim. *)
Definition channel_of (c : Connection) : Channel :=
  match ext c with
  | ConnectionExtRosbag1 callerid latching =>
      Channel1 (topic c) (msgtype c) (msgdef c) (md5sum c) callerid latching
  | ConnectionExtRosbag2 serialization_format offered_qos_profiles =>
      Channel2 (topic c) (msgtype c) serialization_format offered_qos_profiles
  end.

(** The connections that are copied, in order. *)
Definition copied (conns : list Connection) : list Connection :=
  filter (λ c, topic c ≠ bookkeeping_topic) conns.

(** The routing map built for the connections [cs] when the log already
    has [n] channels. *)
Fixpoint route (cs : list Connection) (n : nat) (cm : gmap nat nat)
  : gmap nat nat :=
  match cs with
  | [] => cm
  | c :: cs' => route cs' (S n) (<[id c := n]> cm)
  end.

Definition log_add_connections (chs : list Channel) (l : OutLog) : OutLog :=
  {| log_path := log_path l; log_class := log_class l;
     log_connections := log_connections l ++ chs;
     log_messages := log_messages l; log_closed := log_closed l |}.

Definition log_write_all (ms : list (nat * Z * bytes)) (l : OutLog) : OutLog :=
  {| log_path := log_path l; log_class := log_class l;
     log_connections := log_connections l;
     log_messages := log_messages l ++ ms; log_closed := log_closed l |}.

(** A source message as it is written through the routing map [cm]. *)
Definition routed (cm : gmap nat nat) (m : Connection * Z * bytes)
  : nat * Z * bytes :=
  (default 0%nat (cm !! id m.1.1), m.1.2, m.2).

(** The cutpoint list after [timestamps.append(self._bag_end)]. *)
Definition cutpoints_ns (this : BagSplitter) (l : list float) : list number :=
  (PyFloat <$> ((λ ts, ts * 1e9)%float <$> l)) ++ [PyInt (_bag_end this)].

(** The upper bound of the first window, [self._bag_start + timestamps[0]],
    as the code computes it. *)
Definition first_bound (this : BagSplitter) (l : list float) : result number :=
  match cutpoints_ns this l !! 0%nat with
  | Some t => int_add (_bag_start this) t
  | None => Raise IndexError
  end.

(** A message time inside the window from [s] to the bound [e], as the
    loop tests it. *)
Definition in_window (s : Z) (e : number) (t : Z) : bool :=
  bool_decide (s ≤ t) && int_le t e.

(** The object once [split_rosbag] has chosen its reader and writer. *)
Definition bound_splitter (this : BagSplitter) (outbag_path : Path)
  : BagSplitter :=
  set_is_ros1_writer (family outbag_path)
    (set_is_ros1_reader (family (_inbag this)) this).

Definition writer_class (p : Path) : WriterClass :=
  if family p then Writer1 else Writer2.

(** The log a freshly opened writer holds once the channels are set. *)
Definition opened_log (reader : Reader) (outbag_path : Path) (k : nat) : OutLog :=
  log_add_connections (channel_of <$> copied (connections reader))
    (new_log (writer_class outbag_path) (numbered outbag_path k)).

(** The time of a source message. *)
Definition time_of (m : Connection * Z * bytes) : Z := m.1.2.

(** A message of an output log is the source message [src]: same time,
    same payload, on the channel that carries the source connection. *)
Definition same_message (log : OutLog) (src : Connection * Z * bytes)
    (dst : nat * Z * bytes) : Prop :=
  log_connections log !! dst.1.1 = Some (channel_of src.1.1)
  ∧ dst.1.2 = src.1.2 ∧ dst.2 = src.2.

(** The times of the messages of each output log, in order. *)
Definition written_times (σ : State) : list (list Z) :=
  (λ l, (λ m : nat * Z * bytes, m.1.2) <$> log_messages l) <$> logs σ.

(** A recording that starts at a wall-clock time and lasts 100 seconds. *)
Definition ex_epoch : Z := sec 1700000000.

Definition ex_late_reader (times : list Z) : Reader :=
  {| start_time := ex_epoch; end_time := ex_epoch + sec 100;
     duration := sec 100;
     connections := [ex_imu];
     messages := (λ t, (ex_imu, ex_epoch + t, [Byte.x2a])) <$> times |}.

Definition ex_late_this : BagSplitter :=
  {| _bag_start := ex_epoch; _bag_end := ex_epoch + sec 100;
     _bag_duration := sec 100;
     _is_ros1_reader := Some true; _is_ros1_writer := None;
     _inbag := ex_inbag |}.

(** A recording that also has the bookkeeping channel, with one message
    on it. *)
Definition ex_reader_with_split_event : Reader :=
  {| start_time := 0; end_time := sec 100; duration := sec 100;
     connections := [ex_imu; ex_split_events];
     messages := [(ex_imu, sec 10, [Byte.x2a]);
                  (ex_split_events, sec 20, [Byte.x01]);
                  (ex_imu, sec 30, [Byte.x2a])] |}.

(** Recordings of 100 seconds whose start time, in nanoseconds, is not a
    double: the nearest doubles are 1700000000000000000 and
    1700000000000000256. *)
Definition ex_odd_epoch : Z := 1700000000000000001.

Definition ex_odd_this : BagSplitter :=
  {| _bag_start := ex_odd_epoch; _bag_end := ex_odd_epoch + sec 100;
     _bag_duration := sec 100;
     _is_ros1_reader := Some true; _is_ros1_writer := None;
     _inbag := ex_inbag |}.

Definition ex_up_epoch : Z := 1700000000000000255.

Definition ex_up_this : BagSplitter :=
  {| _bag_start := ex_up_epoch; _bag_end := ex_up_epoch + sec 100;
     _bag_duration := sec 100;
     _is_ros1_reader := Some true; _is_ros1_writer := None;
     _inbag := ex_inbag |}.

(** A directory-family output path. *)
Definition ex_outdir : Path := mkPath "/data/parts" "part".

(** What a message of an output log stands for: the channel it is on in
    that log, its time and its payload; and the same for a source message. *)
Definition log_events (log : OutLog) : list (option Channel * Z * bytes) :=
  (λ m : nat * Z * bytes, (log_connections log !! m.1.1, m.1.2, m.2))
    <$> log_messages log.

Definition source_event (m : Connection * Z * bytes)
  : option Channel * Z * bytes :=
  (Some (channel_of m.1.1), m.1.2, m.2).

Definition written_events (σ : State) : list (option Channel * Z * bytes) :=
  concat (log_events <$> logs σ).

(** Every message of the log is at or before the bound that the code
    computes for the cutpoint [te], [start + te]. *)
Definition within_bound (start : Z) (log : OutLog) (te : number) : Prop :=
  ∃ e, int_add start te = Return e
       ∧ Forall (λ m : nat * Z * bytes, int_le m.1.2 e = true)
                (log_messages log).

(** The channel table and the class of every output log of a run. *)
Definition copy_of_source (reader : Reader) (outbag_path : Path)
    (log : OutLog) : Prop :=
  log_connections log = channel_of <$> copied (connections reader)
  ∧ log_class log = writer_class outbag_path.

(** The state of a run between two iterations of the loop, after the
    source messages [done]: the logs [pre] are finished, [cur] is the one
    being written, and [kept] are the messages written so far. *)
Definition segment_state (reader : Reader) (outbag_path : Path) (T : list number)
    (start : Z) (done : list (Connection * Z * bytes)) (v : Locals)
    (σ : State) : Prop :=
  ∃ pre cur kept te,
    logs σ = pre ++ [cur]
    ∧ writer v = length pre
    ∧ outbag_ctr v = S (length pre)
    ∧ timestamps v = T
    ∧ _bag_start (self σ) = start
    ∧ T !! length pre = Some te
    ∧ int_add start te = Return (e_cliptstamp v)
    ∧ conn_map v = route (copied (connections reader)) 0 ∅
    ∧ Forall (λ l, log_closed l = true ∧ copy_of_source reader outbag_path l) pre
    ∧ copy_of_source reader outbag_path cur
    ∧ log_path <$> pre = numbered outbag_path <$> seq 1 (length pre)
    ∧ log_path cur = numbered outbag_path (S (length pre))
    ∧ (∀ k, (1 ≤ k ≤ S (length pre))%nat →
            disk σ !! numbered outbag_path k
            = Some (node_of_log (writer_class outbag_path)
                      (numbered outbag_path k)))
    ∧ Forall2 (within_bound start) pre (take (length pre) T)
    ∧ within_bound start cur te
    ∧ kept `sublist_of` done
    ∧ Forall (λ m, is_Some (route (copied (connections reader)) 0 ∅ !! id m.1.1))
             kept
    ∧ concat (log_messages <$> pre) ++ log_messages cur
      = routed (route (copied (connections reader)) 0 ∅) <$> kept
    ∧ (length kept + S (length pre) = length done + 1)%nat.

(** Files where the first numbered path of the directory-family output
    holds a log. *)
Definition ex_files_outdir_taken : gmap Path node :=
  <[numbered ex_outdir 1 := Directory ["part1_0.db3"]]> ex_files.




(** Files where the first two numbered output paths are taken. *)
Definition ex_files_taken : gmap Path node :=
  <[numbered ex_outbag 1 := RegularFile]>
    (<[numbered ex_outbag 2 := RegularFile]> ex_files).

(** Message times that cross the cutpoint at 30 seconds. *)
Definition ex_times : list Z := [0; sec 10; sec 40; sec 50; sec 100].

(** * Properties *)

(** ** Facts about paths and their numbering *)

Section path_facts.
Local Arguments String.append !_ _ / : simpl nomatch.

Lemma rsplit_Some c s l r :
  rsplit c s = Some (l, r) →
  s = l +:+ r ∧ ∃ r', r = String c r' ∧ rsplit c r' = None.
Proof.
  revert l. induction s as [|a s IH]; intros l; simpl; [done|].
  destruct (rsplit c s) as [[l0 r0]|] eqn:E.
  - intros [= <- <-]. destruct (IH l0 eq_refl) as [-> Hr]. done.
  - destruct (Ascii.eqb_spec a c) as [->|]; [|done].
    intros [= <- <-]. eauto.
Qed.

Lemma rsplit_app c a r' :
  rsplit c r' = None → rsplit c (a +:+ String c r') = Some (a, String c r').
Proof.
  intros Hr. induction a as [|x a IH]; simpl.
  - by rewrite Hr, Ascii.eqb_refl.
  - by rewrite IH.
Qed.

Lemma last_char_app a b : b ≠ EmptyString → last_char (a +:+ b) = last_char b.
Proof.
  intros Hb. induction a as [|x a IH]; simpl; [done|].
  rewrite IH. destruct (a +:+ b) eqn:E; [|done].
  destruct a, b; done.
Qed.

Lemma last_char_pretty_N_go x s :
  s ≠ EmptyString → last_char (pretty_N_go x s) = last_char s.
Proof.
  revert s. induction (N.lt_wf_0 x) as [x _ IH]; intros s Hs.
  assert (x = 0 ∨ 0 < x)%N as [->|Hx] by lia.
  - by rewrite pretty_N_go_0.
  - rewrite pretty_N_go_step by done.
    rewrite IH; [by destruct s| |done].
    apply N.div_lt; lia.
Qed.

Lemma last_char_pretty_nat (k : nat) :
  ∃ d, last_char (pretty k) = Some (pretty_N_char d).
Proof.
  unfold pretty, pretty_nat, pretty, pretty_N.
  case_decide as Hk.
  - by exists 0%N.
  - rewrite pretty_N_go_step by lia.
    rewrite last_char_pretty_N_go by done. eauto.
Qed.

Lemma pretty_nat_ne_nil (k : nat) : pretty k ≠ EmptyString.
Proof.
  destruct (last_char_pretty_nat k) as [d Hd].
  intros E. by rewrite E in Hd.
Qed.

Lemma pretty_N_char_ne_g d : pretty_N_char d ≠ "g"%char.
Proof. unfold pretty_N_char. repeat case_match; done. Qed.

Lemma string_app_nil_r (s : string) : s +:+ EmptyString = s.
Proof. induction s; simpl; congruence. Qed.

Lemma string_app_assoc (a b c : string) : (a +:+ b) +:+ c = a +:+ (b +:+ c).
Proof. induction a; simpl; congruence. Qed.

Lemma split_name_app_dot a r' :
  rsplit "."%char r' = None → a ≠ EmptyString → r' ≠ EmptyString →
  split_name (a +:+ String "."%char r') = (a, String "."%char r').
Proof.
  intros Hr Ha Hr'. unfold split_name. rewrite rsplit_app by done.
  rewrite bool_decide_true; [done|].
  split; [done|]. destruct r'; simpl; [done|lia].
Qed.

Lemma split_name_cases n :
  split_name n = (n, EmptyString) ∨
  ∃ l r', split_name n = (l, String "."%char r') ∧ n = l +:+ String "."%char r'
          ∧ rsplit "."%char r' = None ∧ l ≠ EmptyString ∧ r' ≠ EmptyString.
Proof.
  unfold split_name. destruct (rsplit "."%char n) as [[l r]|] eqn:E; [|by left].
  case_bool_decide as H; [|by left]. right.
  destruct (rsplit_Some _ _ _ _ E) as (-> & r' & -> & Hr').
  destruct H as [Hl Hlen]. exists l, r'. repeat split; try done.
  intros ->. simpl in Hlen. lia.
Qed.

(** Numbering a path does not change its suffix, when it has one. *)
Lemma suffix_numbered p k :
  suffix p ≠ EmptyString → suffix (numbered p k) = suffix p.
Proof.
  unfold suffix, numbered, numbered_name, stem, suffix. simpl.
  destruct (split_name_cases (name p)) as [->|(l & r' & -> & _ & Hr & Hl & Hr')];
    simpl; [done|]. intros _.
  rewrite <-string_app_assoc, split_name_app_dot; try done.
  destruct l; [done|]. done.
Qed.

Lemma suffix_numbered_bag p k :
  suffix (numbered p k) = ".bag" ↔ suffix p = ".bag".
Proof.
  split.
  - intros H. destruct (decide (suffix p = EmptyString)) as [E|E].
    + exfalso. revert H. unfold suffix, numbered, numbered_name, stem, suffix. simpl.
      unfold suffix in E.
      destruct (split_name_cases (name p)) as [Hn|(l & r' & Hn & _ & _ & _ & _)];
        rewrite Hn in *; simpl in *; [|done].
      destruct (split_name_cases (name p +:+ pretty k +:+ ""))
        as [->|(l & r' & -> & Hn' & _)]; simpl; [done|].
      intros [= ->].
      apply (f_equal last_char) in Hn'.
      rewrite string_app_nil_r, !last_char_app in Hn' by (done || apply pretty_nat_ne_nil).
      destruct (last_char_pretty_nat k) as [d Hd]. rewrite Hd in Hn'.
      simplify_eq/=. by eapply pretty_N_char_ne_g.
    + by rewrite suffix_numbered in H.
  - intros H. rewrite suffix_numbered; [done|]. by rewrite H.
Qed.

Lemma string_app_length (a b : string) :
  String.length (a +:+ b) = (String.length a + String.length b)%nat.
Proof. induction a; simpl; congruence. Qed.

Lemma string_app_inj_r (a b s : string) : a +:+ s = b +:+ s → a = b.
Proof.
  revert b. induction a as [|x a IH]; intros [|y b] H; simpl in *; try done.
  - apply (f_equal String.length) in H. simpl in H.
    rewrite string_app_length in H. lia.
  - apply (f_equal String.length) in H. simpl in H.
    rewrite string_app_length in H. lia.
  - injection H as -> H. f_equal. by apply IH.
Qed.

Lemma numbered_inj p (j k : nat) : numbered p j = numbered p k → j = k.
Proof.
  unfold numbered, numbered_name, replace_name. intros [= H].
  apply String.app_inj, string_app_inj_r in H.
  by apply pretty_nat_inj in H.
Qed.

End path_facts.

(** ** Reasoning in the monad *)

Lemma bind_unfold {A B} (m : M A) (k : A → M B) σ :
  (m ≫= k) σ = match m σ with
               | (Return a, σ') => k a σ'
               | (Raise e, σ') => (Raise e, σ')
               end.
Proof. reflexivity. Qed.

Lemma bind_Return {A B} (m : M A) (k : A → M B) σ a σ' :
  m σ = (Return a, σ') → (m ≫= k) σ = k a σ'.
Proof. intros H. by rewrite bind_unfold, H. Qed.

Lemma bind_Raise {A B} (m : M A) (k : A → M B) σ e σ' :
  m σ = (Raise e, σ') → (m ≫= k) σ = (Raise e, σ').
Proof. intros H. by rewrite bind_unfold, H. Qed.

Lemma check_cutoff_limits_unfold l :
  _check_cutoff_limits (Some l) = for_in l check_cutoff_body tt.
Proof. reflexivity. Qed.

Lemma bind_of_result_Return {A B} (r : result A) (k : A → M B) σ a :
  r = Return a → (of_result r ≫= k) σ = k a σ.
Proof. by intros ->. Qed.

Lemma bind_of_result_Raise {A B} (r : result A) (k : A → M B) σ e :
  r = Raise e → (of_result r ≫= k) σ = (Raise e, σ).
Proof. by intros ->. Qed.

Lemma check_cutoff_body_state ts u σ : (check_cutoff_body ts u σ).2 = σ.
Proof.
  unfold check_cutoff_body. rewrite bind_unfold. simpl.
  destruct (float_add_int _ _) as [t|e] eqn:E; [|by erewrite bind_of_result_Raise].
  erewrite bind_of_result_Return by done.
  destruct (float_lt_int _ _); [done|].
  erewrite bind_of_result_Return by done.
  by destruct (float_gt_int _ _).
Qed.

Lemma check_cutoff_body_cases ts u σ :
  check_cutoff_body ts u σ = (Return tt, σ)
  ∨ ∃ e, check_cutoff_body ts u σ = (Raise e, σ).
Proof.
  pose proof (check_cutoff_body_state ts u σ) as H.
  destruct (check_cutoff_body ts u σ) as [[[]|e] σ']; simpl in H; subst; eauto.
Qed.

(** The validator returns exactly when its loop body returns at every
    offset. *)
Lemma check_cutoff_limits_iff σ l :
  _check_cutoff_limits (Some l) σ = (Return tt, σ)
  ↔ Forall (λ ts, check_cutoff_body ts tt σ = (Return tt, σ)) l.
Proof.
  rewrite check_cutoff_limits_unfold.
  induction l as [|ts l IH]; simpl; [by split|].
  rewrite Forall_cons. rewrite <-IH.
  destruct (check_cutoff_body_cases ts tt σ) as [H|[e H]].
  - erewrite bind_Return by done. by split; [|intros [_ ?]].
  - erewrite bind_Raise by done. split; [done|]. intros [? _]. congruence.
Qed.

(** When the validator raises, it is at the first offset at which its
    loop body raises, with that exception. *)
Lemma check_cutoff_limits_first_raise σ l e σ' :
  _check_cutoff_limits (Some l) σ = (Raise e, σ') →
  σ' = σ
  ∧ ∃ pre ts post,
      l = pre ++ ts :: post
      ∧ Forall (λ ts, check_cutoff_body ts tt σ = (Return tt, σ)) pre
      ∧ check_cutoff_body ts tt σ = (Raise e, σ).
Proof.
  rewrite check_cutoff_limits_unfold.
  induction l as [|ts l IH]; simpl; [done|].
  destruct (check_cutoff_body_cases ts tt σ) as [H|[e' H]].
  - erewrite bind_Return by done. intros Hrun.
    destruct (IH Hrun) as (-> & pre & ts' & post & -> & Hpre & Hts).
    split; [done|]. exists (ts :: pre), ts', post.
    split; [done|]. split; [by constructor|done].
  - erewrite bind_Raise by done. intros [= <- <-].
    split; [done|]. by exists [], ts, l.
Qed.

Lemma check_cutoff_limits_state ts σ : (_check_cutoff_limits ts σ).2 = σ.
Proof.
  destruct ts as [l|]; [|done].
  destruct (_check_cutoff_limits (Some l) σ) as [[[]|e] σ'] eqn:E; simpl.
  - revert σ' E. rewrite check_cutoff_limits_unfold.
    induction l as [|ts l IH]; simpl; intros σ' E; [by injection E|].
    destruct (check_cutoff_body_cases ts tt σ) as [H|[e H]].
    + erewrite bind_Return in E by done. by apply IH.
    + erewrite bind_Raise in E by done. congruence.
  - by apply check_cutoff_limits_first_raise in E as [-> _].
Qed.

Lemma check_cutoff_limits_cases ts σ :
  _check_cutoff_limits ts σ = (Return tt, σ)
  ∨ ∃ e, _check_cutoff_limits ts σ = (Raise e, σ).
Proof.
  pose proof (check_cutoff_limits_state ts σ) as H.
  destruct (_check_cutoff_limits ts σ) as [[[]|e] σ']; simpl in H; subst; eauto.
Qed.

(** ** The cutpoint validator *)

(** C4 — the validator adds the offset, in nanoseconds, to [float(start_time)]
    and so tests a rounded sum against the exact limits.  For a recording
    of 100 seconds that starts at 1700000000000000001 ns the offset 0 is
    refused as lying before the start, and [split_rosbag] ends with that
    error; for one that starts at 1700000000000000255 ns the full
    duration, 100 s, is refused as lying after the end; and an offset
    that is not a number passes both tests.  For the recording that
    starts at 0 the offsets 0 and 100 s are accepted. *)
Theorem check_cutoff_limits_rounds_before_comparing :
  _check_cutoff_limits (Some [0%float]) (initially ex_odd_this ex_files)
  = (Raise (InvalidTimestampError AfterStart 0 ex_odd_epoch),
     initially ex_odd_this ex_files)
  ∧ (∀ reader outbag_path force_out,
       split_rosbag reader (Some [0%float]) outbag_path force_out
         (initially ex_odd_this ex_files)
       = (Raise (InvalidTimestampError AfterStart 0 ex_odd_epoch),
          initially ex_odd_this ex_files))
  ∧ _bag_end ex_up_this - _bag_start ex_up_this = sec 100
  ∧ _check_cutoff_limits (Some [100%float]) (initially ex_up_this ex_files)
    = (Raise (InvalidTimestampError BeforeEnd 1e11 (ex_up_epoch + sec 100)),
       initially ex_up_this ex_files)
  ∧ _check_cutoff_limits (Some [nan]) ex_state = (Return tt, ex_state)
  ∧ _check_cutoff_limits (Some [0; 100]%float) ex_state = (Return tt, ex_state).
Proof.
  assert (_check_cutoff_limits (Some [0%float]) (initially ex_odd_this ex_files)
          = (Raise (InvalidTimestampError AfterStart 0 ex_odd_epoch),
             initially ex_odd_this ex_files)) as H0 by (vm_compute; reflexivity).
  split; [exact H0|]. split.
  { intros reader outbag_path force_out. unfold split_rosbag.
    by erewrite bind_Raise by exact H0. }
  split; [reflexivity|].
  split; [vm_compute; reflexivity|].
  split; vm_compute; reflexivity.
Qed.

Example ex_this_init times :
  BagSplitter_init ex_inbag (ex_reader times) ex_files = Return ex_this.
Proof. reflexivity. Qed.

(** C10 — without a [timestamps] argument the default [None] reaches the
    validator, whose loop raises [TypeError]; nothing is written and no
    output log is created. *)
Theorem split_rosbag_default_timestamps (reader : Reader) (outbag_path : Path)
    (force_out : bool) (σ : State) :
  split_rosbag reader None outbag_path force_out σ
  = (Raise (TypeError "'NoneType' object is not iterable"), σ)
  ∧ _check_cutoff_limits None σ
    = (Raise (TypeError "'NoneType' object is not iterable"), σ).
Proof. done. Qed.

(** ** Preparing an output path *)

Lemma filter_nonempty_existsb {A} (f : A → bool) (l : list A) :
  bool_decide (0 < length (filter (λ x, f x = true) l))%nat = existsb f l.
Proof.
  induction l as [|x l IH]; [done|].
  rewrite filter_cons. simpl. destruct (f x) eqn:E.
  - by rewrite decide_True by done.
  - by rewrite decide_False by (by intros ?).
Qed.

Lemma glob_star_db3 (files : gmap Path node) (p : Path) (n : node) :
  files !! p = Some n →
  is_dir files p
  && bool_decide (0 < length (glob_star files p ".db3"))%nat
  = match n with
    | RegularFile => false
    | Directory entries => existsb (λ e, endswith e ".db3") entries
    end.
Proof.
  intros Hp. unfold is_dir, glob_star. rewrite Hp.
  destruct n as [|entries]; [done|]. simpl.
  apply (filter_nonempty_existsb (λ e, endswith e ".db3")).
Qed.

Lemma delete_rosbag_spec (σ : State) (p : Path) (n : node) :
  disk σ !! p = Some n →
  delete_rosbag p σ
  = if is_rosbag p n then (Return tt, set_disk (delete p) σ)
    else (Raise (ValueError p), σ).
Proof.
  intros Hp. unfold delete_rosbag. rewrite bind_unfold. simpl.
  rewrite (glob_star_db3 _ _ _ Hp). unfold is_file. rewrite Hp.
  destruct n as [|entries]; simpl.
  - by case_bool_decide.
  - by destruct (existsb _ _).
Qed.


Lemma bind_get {B} (k : State → M B) σ : (get ≫= k) σ = k σ σ.
Proof. reflexivity. Qed.

Lemma bind_modify {B} (f : State → State) (k : unit → M B) σ :
  (modify f ≫= k) σ = k tt (f σ).
Proof. reflexivity. Qed.

Lemma bind_mret {A B} (a : A) (k : A → M B) σ : (mret a ≫= k) σ = k a σ.
Proof. reflexivity. Qed.

Lemma bind_raise {A B} (e : exn) (k : A → M B) σ :
  (raise e ≫= k) σ = (Raise e, σ).
Proof. reflexivity. Qed.

Lemma get_reader_class_run filename σ :
  get_reader_class filename σ
  = (Return (if family filename then Reader1 else Reader2),
     set_self (set_is_ros1_reader (family filename)) σ).
Proof. reflexivity. Qed.

Lemma get_writer_class_run filename σ :
  get_writer_class filename σ
  = (Return (if family filename then Writer1 else Writer2),
     set_self (set_is_ros1_writer (family filename)) σ).
Proof. reflexivity. Qed.

Lemma delete_rosbag_set_self (g : BagSplitter → BagSplitter) p σ :
  delete_rosbag p (set_self g σ)
  = ((delete_rosbag p σ).1, set_self g (delete_rosbag p σ).2).
Proof.
  unfold delete_rosbag, unlink, rmtree, raise, modify, get.
  rewrite !bind_unfold. simpl. by repeat case_match.
Qed.

Lemma delete_rosbag_frame p σ :
  self (delete_rosbag p σ).2 = self σ ∧ logs (delete_rosbag p σ).2 = logs σ.
Proof.
  unfold delete_rosbag, unlink, rmtree, raise, modify, get.
  rewrite !bind_unfold. simpl. by repeat case_match.
Qed.

Lemma check_export_path_set_self (g : BagSplitter → BagSplitter) p force_out σ :
  (∀ s, _inbag (g s) = _inbag s) →
  _check_export_path p force_out (set_self g σ)
  = ((_check_export_path p force_out σ).1,
     set_self g (_check_export_path p force_out σ).2).
Proof.
  intros Hg. unfold _check_export_path, raise.
  rewrite !bind_unfold. simpl. rewrite Hg.
  repeat case_match; try done. apply delete_rosbag_set_self.
Qed.

Lemma check_export_path_frame p force_out σ :
  self (_check_export_path p force_out σ).2 = self σ
  ∧ logs (_check_export_path p force_out σ).2 = logs σ.
Proof.
  unfold _check_export_path, raise. rewrite !bind_unfold. simpl.
  repeat case_match; try done. apply delete_rosbag_frame.
Qed.

Lemma family_numbered p k : family (numbered p k) = family p.
Proof. unfold family. apply bool_decide_ext, suffix_numbered_bag. Qed.

Lemma with_name_run p n σ :
  name p ≠ EmptyString → with_name p n σ = (Return (replace_name p n), σ).
Proof. intros H. unfold with_name. by rewrite bool_decide_false. Qed.

Lemma with_name_empty p n σ :
  name p = EmptyString → with_name p n σ = (Raise (ValueErrorEmptyName p), σ).
Proof. intros H. unfold with_name. by rewrite bool_decide_true. Qed.

(** ** Container families *)

(** C7 — when the input path and the requested output path stand for
    different container families, [split_rosbag] always ends with an
    exception and creates no writer, so no message is written; when the
    cutpoints pass validation, the requested output path has a final
    component and the first numbered output path passes
    [_check_export_path], the exception is [NotImplementedError], raised
    with the files as [_check_export_path] left them. *)
Theorem split_rosbag_cross_family (reader : Reader)
    (timestamps0 : option (list float))
    (outbag_path : Path) (force_out : bool) (σ : State) :
  family (_inbag (self σ)) ≠ family outbag_path →
  (∃ e σ', split_rosbag reader timestamps0 outbag_path force_out σ = (Raise e, σ')
           ∧ logs σ' = logs σ)
  ∧ (∀ σ1 σ2,
       _check_cutoff_limits timestamps0 σ = (Return tt, σ1) →
       name outbag_path ≠ EmptyString →
       _check_export_path (numbered outbag_path 1) force_out σ = (Return tt, σ2) →
       ∃ σ', split_rosbag reader timestamps0 outbag_path force_out σ
             = (Raise NotImplementedError, σ')
             ∧ logs σ' = logs σ ∧ disk σ' = disk σ2).
Proof.
  intros Hfam.
  assert (∀ σ2 u,
    _check_cutoff_limits timestamps0 σ = (Return tt, σ) →
    name outbag_path ≠ EmptyString →
    _check_export_path (numbered outbag_path 1) force_out σ = (Return u, σ2) →
    ∃ σ', split_rosbag reader timestamps0 outbag_path force_out σ
          = (Raise NotImplementedError, σ')
          ∧ logs σ' = logs σ ∧ disk σ' = disk σ2) as Hmain.
  { intros σ2 u Hv Hname Hp. unfold split_rosbag.
    erewrite bind_Return by exact Hv.
    rewrite bind_get.
    erewrite bind_Return by apply get_reader_class_run.
    erewrite bind_Return by by apply with_name_run.
    fold (numbered outbag_path 1).
    erewrite bind_Return
      by (rewrite check_export_path_set_self, Hp by done; reflexivity).
    erewrite bind_Return by apply get_writer_class_run.
    rewrite bind_get, family_numbered.
    destruct (check_export_path_frame (numbered outbag_path 1) force_out σ)
      as [Hself Hlogs]. rewrite Hp in Hself, Hlogs. simpl in *.
    rewrite bool_decide_true.
    - eexists. split; [done|]. done.
    - simpl. congruence. }
  split.
  - destruct (check_cutoff_limits_cases timestamps0 σ) as [Hv|[e Hv]].
    + destruct (decide (name outbag_path = EmptyString)) as [Hname|Hname].
      { unfold split_rosbag. erewrite bind_Return by exact Hv.
        rewrite bind_get.
        erewrite bind_Return by apply get_reader_class_run.
        erewrite bind_Raise by by apply with_name_empty.
        by eexists _, _. }
      destruct (_check_export_path (numbered outbag_path 1) force_out σ)
        as [[u|e] σ2] eqn:Hp.
      * destruct (Hmain σ2 u Hv Hname eq_refl) as (σ' & -> & Hl & _). eauto.
      * unfold split_rosbag. erewrite bind_Return by exact Hv.
        rewrite bind_get.
        erewrite bind_Return by apply get_reader_class_run.
        erewrite bind_Return by by apply with_name_run.
        fold (numbered outbag_path 1).
        erewrite bind_Raise
          by (rewrite check_export_path_set_self, Hp by done; reflexivity).
        eexists _, _. split; [done|]. simpl.
        pose proof (check_export_path_frame (numbered outbag_path 1) force_out σ) as [_ Hl].
        by rewrite Hp in Hl.
    + unfold split_rosbag. erewrite bind_Raise by exact Hv. eauto.
  - intros σ1 σ2 Hv Hname Hp.
    pose proof (check_cutoff_limits_state timestamps0 σ) as Hs.
    rewrite Hv in Hs. simpl in Hs. subst σ1. by eapply Hmain.
Qed.

Lemma bind_Return_inv {A B} (m : M A) (k : A → M B) σ b σ' :
  (m ≫= k) σ = (Return b, σ') →
  ∃ a σ1, m σ = (Return a, σ1) ∧ k a σ1 = (Return b, σ').
Proof.
  rewrite bind_unfold. destruct (m σ) as [[a|e] σ1]; [eauto|done].
Qed.

Section preservation.
Context (P : State → Prop).

Lemma preserves_bind {A B} (m : M A) (k : A → M B) :
  preserves P m → (∀ a, preserves P (k a)) → preserves P (m ≫= k).
Proof.
  intros Hm Hk σ HP. rewrite bind_unfold.
  specialize (Hm σ HP). destruct (m σ) as [[a|e] σ1]; simpl in *; [|done].
  by apply Hk.
Qed.

Lemma preserves_mret {A} (a : A) : preserves P (mret a).
Proof. by intros σ. Qed.

Lemma preserves_raise {A} (e : exn) : preserves P (@raise A e).
Proof. by intros σ. Qed.

Lemma preserves_get : preserves P get.
Proof. by intros σ. Qed.

Lemma preserves_for_in {A S} (l : list A) (body : A → S → M S) (s : S) :
  (∀ x s', preserves P (body x s')) → preserves P (for_in l body s).
Proof.
  intros Hbody. revert s. induction l as [|x l IH]; intros s; simpl.
  - apply preserves_mret.
  - apply preserves_bind; [apply Hbody|apply IH].
Qed.

Lemma preserves_modify (f : State → State) :
  (∀ σ, P σ → P (f σ)) → preserves P (modify f).
Proof. intros Hf σ. apply Hf. Qed.
End preservation.

Ltac preserve_step :=
  first
    [ apply preserves_bind; [|intros ?]
    | apply preserves_mret
    | apply preserves_raise
    | apply preserves_get
    | apply preserves_for_in; intros ? ?
    | assumption ].

(** ** The routing map and the bookkeeping channel *)

Lemma bookkeeping_free_logs σ σ' :
  logs σ' = logs σ → bookkeeping_free σ → bookkeeping_free σ'.
Proof. unfold bookkeeping_free. by intros ->. Qed.

Lemma preserves_free_frame {A} (m : M A) :
  (∀ σ, logs (m σ).2 = logs σ) → preserves bookkeeping_free m.
Proof. intros H σ. by apply bookkeeping_free_logs. Qed.

Lemma preserves_free_alter (f : OutLog → OutLog) w :
  (∀ l, log_connections (f l) = log_connections l) →
  preserves bookkeeping_free (modify (set_logs (alter f w))).
Proof.
  intros Hf σ. unfold bookkeeping_free. simpl.
  rewrite !Forall_lookup. intros Hall i l.
  rewrite list_lookup_alter. case_decide as Hi; [|by apply Hall].
  subst i. destruct (logs σ !! w) as [l0|] eqn:E; simpl; [|done].
  intros [= <-]. rewrite Hf. by eapply Hall.
Qed.

Lemma preserves_free_add_connection w ch :
  channel_topic ch ≠ bookkeeping_topic →
  preserves bookkeeping_free (Writer_add_connection w ch).
Proof.
  intros Hch σ. unfold Writer_add_connection, bookkeeping_free.
  destruct (logs σ !! w) as [l0|] eqn:E; simpl; [|done].
  rewrite !Forall_lookup. intros Hall i l.
  rewrite list_lookup_alter. case_decide as Hi; [|by apply Hall].
  subst i. rewrite E. simpl. intros [= <-]. simpl.
  apply Forall_app. split; [by eapply Hall|]. by constructor.
Qed.

Lemma preserves_free_new W p :
  preserves bookkeeping_free (Writer_new W p).
Proof.
  intros σ. unfold bookkeeping_free. simpl. intros H.
  apply Forall_app. split; [done|]. by repeat constructor.
Qed.

Lemma preserves_free_open w : preserves bookkeeping_free (Writer_open w).
Proof.
  apply preserves_free_frame. intros σ. unfold Writer_open.
  by destruct (logs σ !! w).
Qed.

Lemma preserves_free_check_export_path p force_out :
  preserves bookkeeping_free (_check_export_path p force_out).
Proof. apply preserves_free_frame. intros σ. apply check_export_path_frame. Qed.

Lemma preserves_free_check_cutoff_limits ts :
  preserves bookkeeping_free (_check_cutoff_limits ts).
Proof.
  apply preserves_free_frame. intros σ. by rewrite check_cutoff_limits_state.
Qed.

Lemma preserves_free_of_result {A} (r : result A) :
  preserves bookkeeping_free (of_result r).
Proof. by apply preserves_free_frame. Qed.

Lemma preserves_free_with_name p n :
  preserves bookkeeping_free (with_name p n).
Proof.
  apply preserves_free_frame. intros σ. unfold with_name. by case_bool_decide.
Qed.

Lemma preserves_free_set_writer_connections w conns :
  preserves bookkeeping_free (set_writer_connections w conns).
Proof.
  unfold set_writer_connections. apply preserves_for_in. intros conn cm.
  unfold add_writer_connection.
  case_bool_decide as Ht; [apply preserves_mret|].
  apply preserves_bind; [apply preserves_get|]. intros σ0.
  destruct (truthy _), (ext conn); repeat preserve_step;
    by apply preserves_free_add_connection.
Qed.

Lemma preserves_free_split_step reader outbag_path base_path force_out msg v :
  preserves bookkeeping_free
    (split_step reader outbag_path base_path force_out msg v).
Proof.
  unfold split_step. destruct msg as [[conn timestamp] data].
  destruct (_ && _).
  - apply preserves_bind; [unfold getkey; case_match; preserve_step|].
    intros c. apply preserves_bind; [by apply preserves_free_alter|].
    intros _. apply preserves_mret.
  - apply preserves_bind; [apply preserves_get|]. intros σ0.
    apply preserves_bind; [unfold getitem; case_match; preserve_step|].
    intros t.
    apply preserves_bind; [apply preserves_free_of_result|]. intros e.
    apply preserves_bind; [apply preserves_free_with_name|]. intros p.
    apply preserves_bind; [apply preserves_free_check_export_path|]. intros _.
    apply preserves_bind; [by apply preserves_free_alter|]. intros _.
    apply preserves_bind; [by apply preserves_free_frame|]. intros W.
    apply preserves_bind; [apply preserves_free_new|]. intros w.
    apply preserves_bind; [apply preserves_free_open|]. intros _.
    apply preserves_bind; [apply preserves_free_set_writer_connections|].
    intros cm. apply preserves_mret.
Qed.

Lemma preserves_free_split_rosbag reader ts outbag_path force_out :
  preserves bookkeeping_free (split_rosbag reader ts outbag_path force_out).
Proof.
  unfold split_rosbag.
  apply preserves_bind; [apply preserves_free_check_cutoff_limits|]. intros _.
  apply preserves_bind; [apply preserves_get|]. intros σ0.
  apply preserves_bind; [by apply preserves_free_frame|]. intros _.
  apply preserves_bind; [apply preserves_free_with_name|]. intros p.
  apply preserves_bind; [apply preserves_free_check_export_path|]. intros _.
  apply preserves_bind; [by apply preserves_free_frame|]. intros W.
  apply preserves_bind; [apply preserves_get|]. intros σ1.
  case_bool_decide; [apply preserves_raise|].
  apply preserves_bind; [apply preserves_free_new|]. intros w.
  apply preserves_bind; [apply preserves_free_open|]. intros _.
  apply preserves_bind; [apply preserves_free_set_writer_connections|].
  intros cm.
  apply preserves_bind; [destruct ts; preserve_step|]. intros l.
  apply preserves_bind; [unfold getitem; case_match; preserve_step|].
  intros t.
  apply preserves_bind; [apply preserves_free_of_result|]. intros e.
  apply preserves_bind.
  { apply preserves_for_in. intros msg v. apply preserves_free_split_step. }
  intros v. apply preserves_bind; [by apply preserves_free_alter|].
  intros _. apply preserves_mret.
Qed.
Lemma mret_Return_inv {A} (a b : A) (σ σ' : State) :
  (mret a : M A) σ = (Return b, σ') → a = b ∧ σ = σ'.
Proof. by intros [= -> ->]. Qed.

Ltac inv_ret H :=
  apply mret_Return_inv in H; destruct H as [? ?]; subst.

Ltac inv_bind H :=
  let a := fresh "a" in
  let σ1 := fresh "σ" in
  let H1 := fresh H in
  apply bind_Return_inv in H as (a & σ1 & H1 & H).

Lemma add_writer_connection_routes w conn cm0 σ cm σ' :
  add_writer_connection w conn cm0 σ = (Return cm, σ') →
  ∀ i, is_Some (cm !! i)
       ↔ is_Some (cm0 !! i) ∨ (id conn = i ∧ topic conn ≠ bookkeeping_topic).
Proof.
  unfold add_writer_connection. intros H i.
  case_bool_decide as Ht.
  - inv_ret H. split; [by left|]. by intros [?|[_ ?]].
  - rewrite bind_get in H.
    assert (∃ c, cm = <[id conn := c]> cm0) as [c ->].
    { destruct (truthy _), (ext conn); try done;
        inv_bind H; inv_ret H; eauto. }
    rewrite lookup_insert. case_decide as Hi.
    + split; [by right|by eauto].
    + split; [by left|]. by intros [?|[? _]].
Qed.

Lemma for_in_add_writer_connection_routes w conns cm0 σ cm σ' :
  for_in conns (add_writer_connection w) cm0 σ = (Return cm, σ') →
  ∀ i, is_Some (cm !! i)
       ↔ is_Some (cm0 !! i)
         ∨ ∃ c, c ∈ conns ∧ id c = i ∧ topic c ≠ bookkeeping_topic.
Proof.
  revert cm0 σ. induction conns as [|conn conns IH]; intros cm0 σ H i; simpl in H.
  - inv_ret H. split; [by left|].
    intros [?|(c & Hc & _)]; [done|]. by apply elem_of_nil in Hc.
  - inv_bind H. rewrite (IH _ _ H i).
    rewrite (add_writer_connection_routes _ _ _ _ _ _ H0 i).
    split.
    + intros [[?|[? ?]]|(c & Hc & ?)]; [by left|right..].
      * exists conn. split; [apply list_elem_of_here|done].
      * exists c. split; [by apply list_elem_of_further|done].
    + intros [?|(c & Hc & Hid & Ht)]; [by left; left|].
      apply elem_of_cons in Hc as [->|Hc]; [by left; right|].
      right. eauto.
Qed.

Lemma set_writer_connections_routes w conns σ cm σ' :
  set_writer_connections w conns σ = (Return cm, σ') → routes_exactly conns cm.
Proof.
  intros H i. rewrite (for_in_add_writer_connection_routes _ _ _ _ _ _ H i).
  rewrite lookup_empty. split; [|by right]. intros [[? ?]|?]; done.
Qed.

Lemma split_step_routes reader outbag_path base_path force_out msg v σ v' σ' :
  split_step reader outbag_path base_path force_out msg v σ = (Return v', σ') →
  (conn_map v' = conn_map v ∧ length (logs σ') = length (logs σ))
  ∨ routes_exactly (connections reader) (conn_map v').
Proof.
  unfold split_step. destruct msg as [[conn timestamp] data].
  destruct (_ && _); intros H.
  - left. inv_bind H. inv_bind H.
    unfold getkey in H0. destruct (conn_map v !! id conn); [|done].
    inv_ret H0. inv_ret H. unfold Writer_write, modify in H1.
    simplify_eq. simpl. by rewrite length_alter.
  - right. rewrite bind_get in H. do 9 inv_bind H.
    inv_ret H. simpl.
    by eapply set_writer_connections_routes.
Qed.

Lemma for_in_split_step_routes reader outbag_path base_path force_out msgs v σ v' σ' :
  for_in msgs (split_step reader outbag_path base_path force_out) v σ
  = (Return v', σ') →
  routes_exactly (connections reader) (conn_map v) →
  routes_exactly (connections reader) (conn_map v').
Proof.
  revert v σ. induction msgs as [|msg msgs IH]; intros v σ H Hv; simpl in H.
  - by inv_ret H.
  - inv_bind H. eapply IH; [done|].
    destruct (split_step_routes _ _ _ _ _ _ _ _ _ H0) as [[-> _]|?]; done.
Qed.

Lemma split_rosbag_routes reader ts outbag_path force_out σ v σ' :
  split_rosbag reader ts outbag_path force_out σ = (Return v, σ') →
  routes_exactly (connections reader) (conn_map v).
Proof.
  unfold split_rosbag. intros H.
  inv_bind H. rewrite bind_get in H. do 4 inv_bind H. rewrite bind_get in H.
  case_bool_decide; [done|]. do 8 inv_bind H.
  inv_ret H.
  eapply for_in_split_step_routes; [done|]. simpl.
  by eapply set_writer_connections_routes.
Qed.

(** C8 — the routing map that [set_writer_connections] returns has an entry
    for exactly the source connections that are not on the bookkeeping
    topic; a step of the split that opens a new output log leaves this
    freshly built map in [conn_map], whatever the map was before; the same
    holds of the map when [split_rosbag] ends; and however [split_rosbag]
    ends, no output log has a channel on the bookkeeping topic. *)
Theorem routing_map_rebuilt_without_bookkeeping (reader : Reader) :
  (∀ w σ cm σ',
     set_writer_connections w (connections reader) σ = (Return cm, σ') →
     routes_exactly (connections reader) cm)
  ∧ (∀ outbag_path base_path force_out msg v σ v' σ',
       split_step reader outbag_path base_path force_out msg v σ
       = (Return v', σ') →
       length (logs σ') ≠ length (logs σ) →
       routes_exactly (connections reader) (conn_map v'))
  ∧ (∀ ts outbag_path force_out σ v σ',
       split_rosbag reader ts outbag_path force_out σ = (Return v, σ') →
       routes_exactly (connections reader) (conn_map v))
  ∧ (∀ ts outbag_path force_out σ,
       bookkeeping_free σ →
       bookkeeping_free (split_rosbag reader ts outbag_path force_out σ).2).
Proof.
  split; [|split; [|split]].
  - intros w σ cm σ'. apply set_writer_connections_routes.
  - intros outbag_path base_path force_out msg v σ v' σ' H Hlen.
    by destruct (split_step_routes _ _ _ _ _ _ _ _ _ H) as [[_ ?]|?].
  - intros ts outbag_path force_out σ v σ'. apply split_rosbag_routes.
  - intros ts outbag_path force_out σ. apply preserves_free_split_rosbag.
Qed.

(** ** Runs that succeed *)

Lemma set_logs_ext (f g : list OutLog → list OutLog) σ :
  f (logs σ) = g (logs σ) → set_logs f σ = set_logs g σ.
Proof. unfold set_logs. by intros ->. Qed.

Lemma set_logs_set_logs (f g : list OutLog → list OutLog) σ :
  set_logs f (set_logs g σ) = set_logs (λ ls, f (g ls)) σ.
Proof. reflexivity. Qed.

Lemma set_logs_id (f : list OutLog → list OutLog) σ :
  f (logs σ) = logs σ → set_logs f σ = σ.
Proof. unfold set_logs. intros ->. by destruct σ. Qed.

Lemma log_add_connections_nil l : log_add_connections [] l = l.
Proof. unfold log_add_connections. rewrite app_nil_r. by destruct l. Qed.

Lemma log_add_connections_cons ch chs l :
  log_add_connections (ch :: chs) l
  = log_add_connections chs (log_add_connection ch l).
Proof.
  unfold log_add_connections, log_add_connection. simpl.
  by rewrite <-app_assoc.
Qed.

Lemma log_write_all_nil l : log_write_all [] l = l.
Proof. unfold log_write_all. rewrite app_nil_r. by destruct l. Qed.

Lemma log_write_all_cons m ms l :
  log_write_all (m :: ms) l = log_write_all ms (log_write m l).
Proof.
  unfold log_write_all, log_write. simpl. by rewrite <-app_assoc.
Qed.

Lemma Writer_add_connection_run w ch σ l0 :
  logs σ !! w = Some l0 →
  Writer_add_connection w ch σ
  = (Return (length (log_connections l0)),
     set_logs (alter (log_add_connection ch) w) σ).
Proof. intros H. unfold Writer_add_connection. by rewrite H. Qed.

Lemma add_writer_connection_skip w conn cm σ :
  topic conn = bookkeeping_topic →
  add_writer_connection w conn cm σ = (Return cm, σ).
Proof.
  intros H. unfold add_writer_connection. by rewrite bool_decide_true.
Qed.

Lemma add_writer_connection_run w conn cm σ l0 b :
  topic conn ≠ bookkeeping_topic →
  _is_ros1_writer (self σ) = Some b →
  ext_family (ext conn) = b →
  logs σ !! w = Some l0 →
  add_writer_connection w conn cm σ
  = (Return (<[id conn := length (log_connections l0)]> cm),
     set_logs (alter (log_add_connection (channel_of conn)) w) σ).
Proof.
  intros Ht Hb He Hw. unfold add_writer_connection, channel_of.
  rewrite bool_decide_false by done. rewrite bind_get, Hb. simpl.
  destruct b, (ext conn); try done;
    by erewrite bind_Return by by apply Writer_add_connection_run.
Qed.

Lemma for_in_add_writer_connection_run w conns cm0 σ l0 b :
  _is_ros1_writer (self σ) = Some b →
  Forall (λ c, ext_family (ext c) = b) conns →
  logs σ !! w = Some l0 →
  for_in conns (add_writer_connection w) cm0 σ
  = (Return (route (copied conns) (length (log_connections l0)) cm0),
     set_logs (alter (log_add_connections (channel_of <$> copied conns)) w) σ).
Proof.
  intros Hb Hext. revert cm0 σ l0 Hb.
  induction Hext as [|conn conns Hc _ IH]; intros cm0 σ l0 Hb Hw.
  - simpl. f_equal. symmetry. apply set_logs_id, list_alter_id.
    apply log_add_connections_nil.
  - simpl. unfold copied. rewrite filter_cons.
    destruct (decide (topic conn ≠ bookkeeping_topic)) as [Ht|Ht].
    + erewrite bind_Return by by eapply add_writer_connection_run.
      rewrite (IH _ _ (log_add_connection (channel_of conn) l0));
        [| done | simpl; by rewrite list_lookup_alter, decide_True, Hw by done].
      simpl. rewrite length_app. simpl.
      replace (length (log_connections l0) + 1)%nat
        with (S (length (log_connections l0))) by lia.
      f_equal. rewrite set_logs_set_logs. apply set_logs_ext.
      rewrite list_alter_alter_eq.
      apply list_alter_ext; [|done]. intros l _. simpl.
      by rewrite log_add_connections_cons.
    + erewrite bind_Return
        by (apply add_writer_connection_skip; by destruct (decide (topic conn = bookkeeping_topic))).
      by apply IH.
Qed.

Lemma route_lookup_notin cs n cm i :
  i ∉ id <$> cs → route cs n cm !! i = cm !! i.
Proof.
  revert n cm. induction cs as [|c cs IH]; intros n cm Hi; simpl; [done|].
  rewrite fmap_cons, not_elem_of_cons in Hi. destruct Hi as [Hne Hi].
  rewrite IH by done. by rewrite lookup_insert_ne.
Qed.

Lemma route_lookup cs n cm k c :
  NoDup (id <$> cs) → cs !! k = Some c →
  route cs n cm !! id c = Some (n + k)%nat.
Proof.
  revert n cm k. induction cs as [|c0 cs IH]; intros n cm k Hnd Hk; [done|].
  rewrite fmap_cons in Hnd. apply NoDup_cons in Hnd as [Hc0 Hnd].
  destruct k as [|k]; simpl in *.
  - injection Hk as ->. rewrite route_lookup_notin by done.
    rewrite lookup_insert_eq. f_equal. lia.
  - rewrite (IH _ _ k) by done. f_equal. lia.
Qed.

Lemma NoDup_id_copied conns :
  NoDup (id <$> conns) → NoDup (id <$> copied conns).
Proof.
  intros H. eapply sublist_NoDup; [exact H|].
  apply fmap_sublist, sublist_filter.
Qed.

(** A copied connection is routed to the channel that carries it. *)
Lemma route_channel_of conns cm c :
  NoDup (id <$> conns) → c ∈ conns → topic c ≠ bookkeeping_topic →
  ∃ k, route (copied conns) 0 cm !! id c = Some k
       ∧ (channel_of <$> copied conns) !! k = Some (channel_of c).
Proof.
  intros Hnd Hc Ht.
  assert (c ∈ copied conns) as Hin by by apply list_elem_of_filter.
  apply list_elem_of_lookup in Hin as [k Hk]. exists k. split.
  - by rewrite (route_lookup _ _ _ k c) by (by apply NoDup_id_copied || done).
  - by rewrite list_lookup_fmap, Hk.
Qed.

Lemma check_export_path_free p force_out σ :
  p ≠ _inbag (self σ) → disk σ !! p = None →
  _check_export_path p force_out σ = (Return tt, σ).
Proof.
  intros Hne Hnone. unfold _check_export_path. rewrite bind_get.
  rewrite bool_decide_false by done.
  unfold exists_. rewrite bool_decide_false; [done|].
  rewrite Hnone. by intros [? ?].
Qed.

Lemma set_is_ros1_writer_same b s :
  _is_ros1_writer s = Some b → set_is_ros1_writer b s = s.
Proof. destruct s. simpl. by intros ->. Qed.

Lemma set_self_id (f : BagSplitter → BagSplitter) σ :
  f (self σ) = self σ → set_self f σ = σ.
Proof. unfold set_self. intros ->. by destruct σ. Qed.

Lemma split_step_write reader outbag_path base_path force_out c t d v σ k :
  in_window (s_cliptstamp v) (e_cliptstamp v) t = true →
  conn_map v !! id c = Some k →
  split_step reader outbag_path base_path force_out (c, t, d) v σ
  = (Return v, set_logs (alter (log_write (k, t, d)) (writer v)) σ).
Proof.
  intros Hin Hk. unfold split_step. unfold in_window in Hin. rewrite Hin.
  unfold getkey. by rewrite Hk.
Qed.

Lemma for_in_split_step_write reader outbag_path base_path force_out msgs v σ :
  Forall (λ m, in_window (s_cliptstamp v) (e_cliptstamp v) (time_of m) = true
               ∧ is_Some (conn_map v !! id m.1.1)) msgs →
  for_in msgs (split_step reader outbag_path base_path force_out) v σ
  = (Return v,
     set_logs (alter (log_write_all (routed (conn_map v) <$> msgs)) (writer v)) σ).
Proof.
  intros H. revert σ. induction H as [|[[c t] d] msgs (Hin & [k Hk]) _ IH];
    intros σ; unfold time_of in *; simpl in *.
  - f_equal. symmetry. apply set_logs_id, list_alter_id, log_write_all_nil.
  - erewrite bind_Return by by eapply split_step_write.
    rewrite IH. f_equal. rewrite set_logs_set_logs. apply set_logs_ext.
    rewrite list_alter_alter_eq. apply list_alter_ext; [|done].
    intros l _. simpl. rewrite log_write_all_cons. unfold routed. simpl.
    by rewrite Hk.
Qed.

(** [split_rosbag] up to the check of the first numbered path, when the
    validator returns and the requested path has a final component. *)
Lemma split_rosbag_first_path reader ts outbag_path force_out σ :
  _check_cutoff_limits ts σ = (Return tt, σ) →
  name outbag_path ≠ EmptyString →
  split_rosbag reader ts outbag_path force_out σ
  = (_check_export_path (numbered outbag_path 1) force_out;;
     W ← get_writer_class (numbered outbag_path 1);
     σ1 ← get;
     if bool_decide (_is_ros1_reader (self σ1) ≠ _is_ros1_writer (self σ1)) then
       raise NotImplementedError
     else
       writer1 ← Writer_new W (numbered outbag_path 1);
       Writer_open writer1;;
       conn_map1 ← set_writer_connections writer1 (connections reader);
       l ← iter ts;
       let timestamps' :=
         (PyFloat <$> ((λ ts, ts * 1e9)%float <$> l))
         ++ [PyInt (_bag_end (self σ1))] in
       t ← getitem timestamps' 0;
       e_cliptstamp1 ← of_result (int_add (_bag_start (self σ1)) t);
       v ← for_in (messages reader)
             (split_step reader outbag_path outbag_path force_out)
             {| timestamps := timestamps'; outbag_ctr := 1;
                export_path := numbered outbag_path 1; writer := writer1;
                conn_map := conn_map1;
                s_cliptstamp := _bag_start (self σ1);
                e_cliptstamp := e_cliptstamp1 |};
       Writer_close (writer v);;
       mret v)
    (set_self (set_is_ros1_reader (family (_inbag (self σ)))) σ).
Proof.
  intros Hv Hname. unfold split_rosbag.
  erewrite bind_Return by exact Hv.
  rewrite bind_get.
  erewrite bind_Return by apply get_reader_class_run.
  erewrite bind_Return by by apply with_name_run.
  reflexivity.
Qed.

(** A failed check of the first numbered path ends [split_rosbag] with
    the exception of the check, before any writer is created and with the
    files as they were. *)
Lemma check_export_path_Raise p force_out σ e σ' :
  _check_export_path p force_out σ = (Raise e, σ') → σ' = σ.
Proof.
  unfold _check_export_path. rewrite bind_get.
  case_bool_decide; [by intros [= _ <-]|].
  destruct (exists_ _ _ && negb _); [by intros [= _ <-]|].
  destruct (exists_ _ _ && _); [|done].
  unfold delete_rosbag. rewrite bind_get.
  destruct (is_file _ _ && _); [done|].
  destruct (is_dir _ _ && _); [done|]. by intros [= _ <-].
Qed.

Lemma split_rosbag_first_path_Raise reader ts outbag_path force_out σ e σ2 :
  _check_cutoff_limits ts σ = (Return tt, σ) →
  name outbag_path ≠ EmptyString →
  _check_export_path (numbered outbag_path 1) force_out σ = (Raise e, σ2) →
  split_rosbag reader ts outbag_path force_out σ
  = (Raise e, set_self (set_is_ros1_reader (family (_inbag (self σ)))) σ).
Proof.
  intros Hv Hname Hp. rewrite split_rosbag_first_path by done.
  pose proof (check_export_path_Raise _ _ _ _ _ Hp) as ->.
  erewrite bind_Raise
    by (rewrite check_export_path_set_self, Hp by done; reflexivity).
  done.
Qed.

(** [split_rosbag] up to its loop, when the validator returns, the
    families agree and the first output path is free. *)
Lemma split_rosbag_prefix reader l outbag_path force_out this files e0 :
  _check_cutoff_limits (Some l) (initially this files)
  = (Return tt, initially this files) →
  name outbag_path ≠ EmptyString →
  first_bound this l = Return e0 →
  family (_inbag this) = family outbag_path →
  numbered outbag_path 1 ≠ _inbag this →
  files !! numbered outbag_path 1 = None →
  Forall (λ c, ext_family (ext c) = family outbag_path) (connections reader) →
  split_rosbag reader (Some l) outbag_path force_out (initially this files)
  = (v ← for_in (messages reader)
           (split_step reader outbag_path outbag_path force_out)
           {| timestamps := cutpoints_ns this l; outbag_ctr := 1;
              export_path := numbered outbag_path 1; writer := 0;
              conn_map := route (copied (connections reader)) 0 ∅;
              s_cliptstamp := _bag_start this;
              e_cliptstamp := e0 |};
     Writer_close (writer v);; mret v)
    {| self := bound_splitter this outbag_path;
       disk := <[numbered outbag_path 1 :=
                   node_of_log (writer_class outbag_path) (numbered outbag_path 1)]> files;
       logs := [opened_log reader outbag_path 1] |}.
Proof.
  intros Hvalid Hname He0 Hfam Hne Hfree Hext.
  rewrite split_rosbag_first_path by done.
  erewrite bind_Return
    by (rewrite check_export_path_set_self by done;
        rewrite check_export_path_free by done; reflexivity).
  erewrite bind_Return by apply get_writer_class_run.
  rewrite bind_get, family_numbered. simpl.
  rewrite bool_decide_false by (intros ?; congruence).
  unfold Writer_new at 1. rewrite bind_unfold. simpl.
  unfold Writer_open at 1. rewrite bind_unfold. simpl.
  unfold set_writer_connections.
  erewrite bind_Return
    by (eapply (for_in_add_writer_connection_run _ _ _ _ _ (family outbag_path));
        [reflexivity|exact Hext|reflexivity]).
  simpl. rewrite bind_mret. unfold getitem. fold (cutpoints_ns this l).
  unfold first_bound in He0.
  destruct (cutpoints_ns this l !! 0%nat) as [t0|]; [|done].
  rewrite bind_mret.
  erewrite bind_of_result_Return by exact He0. reflexivity.
Qed.

(** ** Splitting without cutpoints *)

(** Without cutpoints the run is a copy — with an empty cutpoint list, a
    requested output path that has a final component and is of the
    input's family, a first numbered path that is free and is not the
    input, a source with distinct connection ids whose [ext] records are
    of that family, a non-negative [_bag_start], and source messages on
    source connections, off the bookkeeping topic, with times from
    [_bag_start] to [_bag_end]: [split_rosbag] returns with exactly one
    output log, closed, at the first numbered path, and its messages are
    the source messages in order, each with its time and payload on the
    channel that carries its connection. *)
Theorem split_rosbag_no_cutpoints_identity (reader : Reader)
    (outbag_path : Path) (force_out : bool) (this : BagSplitter)
    (files : gmap Path node) :
  name outbag_path ≠ EmptyString →
  family (_inbag this) = family outbag_path →
  numbered outbag_path 1 ≠ _inbag this →
  files !! numbered outbag_path 1 = None →
  Forall (λ c, ext_family (ext c) = family outbag_path) (connections reader) →
  NoDup (id <$> connections reader) →
  0 ≤ _bag_start this →
  Forall (λ m, m.1.1 ∈ connections reader
               ∧ topic m.1.1 ≠ bookkeeping_topic
               ∧ _bag_start this ≤ time_of m ≤ _bag_end this)
         (messages reader) →
  ∃ v σ' log,
    split_rosbag reader (Some []) outbag_path force_out (initially this files)
    = (Return v, σ')
    ∧ outbag_ctr v = 1%nat
    ∧ logs σ' = [log]
    ∧ log_path log = numbered outbag_path 1
    ∧ log_closed log = true
    ∧ Forall2 (same_message log) (messages reader) (log_messages log).
Proof.
  intros Hname Hfam Hne Hfree Hext Hnd Hstart Hmsgs.
  rewrite (split_rosbag_prefix reader [] outbag_path force_out this files
             (PyInt (_bag_start this + _bag_end this))) by done.
  erewrite bind_Return; cycle 1.
  { apply for_in_split_step_write. simpl.
    eapply Forall_impl; [exact Hmsgs|]. intros [[c t] d]. unfold time_of. simpl.
    intros (Hc & Ht & Hspan). split.
    - unfold in_window. simpl. rewrite !bool_decide_true by lia. done.
    - destruct (route_channel_of (connections reader) ∅ c) as (k & -> & _); done. }
  simpl. eexists _, _, _. split; [reflexivity|]. simpl.
  repeat split. apply Forall2_fmap_r, Forall_Forall2_diag.
  eapply Forall_impl; [exact Hmsgs|]. intros [[c t] d]. simpl.
  intros (Hc & Ht & _). unfold same_message, routed. simpl.
  destruct (route_channel_of (connections reader) ∅ c) as (k & -> & Hk); done.
Qed.

Lemma fmap_alter_same {A B} (g : A → B) (f : A → A) i (l : list A) :
  (∀ x, g (f x) = g x) → g <$> alter f i l = g <$> l.
Proof.
  intros H. apply list_eq. intros j.
  rewrite !list_lookup_fmap, list_lookup_alter. case_decide as Hij; [|done].
  subst j. destruct (l !! i); simpl; [|done]. by rewrite H.
Qed.

Lemma cutpoints_ns_length this l :
  length (cutpoints_ns this l) = (length l + 1)%nat.
Proof. unfold cutpoints_ns. by rewrite length_app, !length_fmap. Qed.

Lemma cutpoints_ns_last this l :
  cutpoints_ns this l !! length l = Some (PyInt (_bag_end this)).
Proof.
  unfold cutpoints_ns. rewrite lookup_app_r by (by rewrite !length_fmap).
  by rewrite !length_fmap, Nat.sub_diag.
Qed.

(** ** The behaviour at concrete recordings *)

(** C1 — on a recording of [[0, 100]] seconds cut at 30 seconds, with
    messages at 10, 40 and 50 seconds, [split_rosbag] returns with two
    output logs; the message at 40 seconds, which crosses the cutpoint,
    opens the second log and is written to neither: the logs hold the
    messages at 10 and at 50 seconds. *)
Theorem crossing_message_is_dropped :
  let run := split_rosbag (ex_reader [sec 10; sec 40; sec 50]) (Some [30%float])
               ex_outbag false ex_state in
  (∃ v, run.1 = Return v ∧ outbag_ctr v = 2%nat ∧ s_cliptstamp v = sec 40)
  ∧ written_times run.2 = [[sec 10]; [sec 50]]
  ∧ sec 40 ∉ concat (written_times run.2).
Proof.
  split; [|split].
  - eexists. split; [by vm_compute|]. by vm_compute.
  - by vm_compute.
  - vm_compute. intros H. by repeat (apply elem_of_cons in H as [H|H]; [done|]);
      apply elem_of_nil in H.
Qed.

(** C3 — on a recording that starts at a wall-clock time [start] and ends
    100 seconds later, split without cutpoints, the upper bound of the only
    segment is [start + end_time], not [end_time]; cut at 30 seconds, the
    bound after the rotation is again [start + end_time]. *)
Theorem sentinel_bound_is_start_plus_end :
  let run0 := split_rosbag (ex_late_reader [0; sec 100]) (Some [])
                ex_outbag false (initially ex_late_this ex_files) in
  let run1 := split_rosbag (ex_late_reader [0; sec 40; sec 100]) (Some [30%float])
                ex_outbag false (initially ex_late_this ex_files) in
  (∃ v, run0.1 = Return v
        ∧ e_cliptstamp v = PyInt (_bag_start ex_late_this + _bag_end ex_late_this)
        ∧ e_cliptstamp v ≠ PyInt (_bag_end ex_late_this))
  ∧ (∃ v, run1.1 = Return v ∧ outbag_ctr v = 2%nat
          ∧ e_cliptstamp v = PyInt (_bag_start ex_late_this + _bag_end ex_late_this)
          ∧ e_cliptstamp v ≠ PyInt (_bag_end ex_late_this)).
Proof.
  split.
  - eexists. split; [by vm_compute|]. split; by vm_compute.
  - eexists. split; [by vm_compute|]. split; [by vm_compute|]. split; by vm_compute.
Qed.

(** C5 — on a recording of [[0, 100]] seconds cut at 30 and 70 seconds, the
    message at exactly 30 seconds is written to the first log; the message
    at 30.0001 seconds opens the second log, whose lower bound becomes its
    own time, and is written to no log; the message after it, at 30.0002
    seconds, is the first of the second log. *)
Theorem rotating_message_not_in_new_segment :
  let run := split_rosbag (ex_reader [sec 30; 30000100000; 30000200000])
               (Some [30%float; 70%float]) ex_outbag false ex_state in
  (∃ v, run.1 = Return v ∧ outbag_ctr v = 2%nat
        ∧ s_cliptstamp v = 30000100000
        ∧ e_cliptstamp v = PyFloat 7e10)
  ∧ written_times run.2 = [[sec 30]; [30000200000]]
  ∧ 30000100000 ∉ concat (written_times run.2).
Proof.
  split; [|split].
  - eexists. split; [by vm_compute|]. split; [by vm_compute|]. split; by vm_compute.
  - by vm_compute.
  - vm_compute. intros H. by repeat (apply elem_of_cons in H as [H|H]; [done|]);
      apply elem_of_nil in H.
Qed.

(** C6 — without cutpoints, a source with a message on the bookkeeping
    channel makes [split_rosbag] end with [KeyError] at that message: the
    channel is left out of the routing map and the loop looks it up all
    the same.  The only output log holds the one message before it, not
    the three messages of the source, and is left open. *)
Theorem no_cutpoints_bookkeeping_message_KeyError :
  let run := split_rosbag ex_reader_with_split_event (Some [])
               ex_outbag false ex_state in
  run.1 = Raise (KeyError (id ex_split_events))
  ∧ (∀ v, run.1 ≠ Return v)
  ∧ written_times run.2 = [[sec 10]]
  ∧ log_closed <$> logs run.2 = [false]
  ∧ is_Some (disk run.2 !! numbered ex_outbag 1)
  ∧ length (messages ex_reader_with_split_event) = 3%nat.
Proof.
  split; [by vm_compute|]. split; [by vm_compute|]. split; [by vm_compute|].
  split; [by vm_compute|]. split; [|by vm_compute].
  vm_compute. eauto.
Qed.

(** ** The theorems at concrete recordings *)

Lemma ex_outbag_not_inbag k : numbered ex_outbag k ≠ ex_inbag.
Proof. intros H. by apply (f_equal parent) in H. Qed.

Lemma ex_outbag_free k : ex_files !! numbered ex_outbag k = None.
Proof.
  unfold ex_files. apply lookup_singleton_ne. intros H.
  by apply (ex_outbag_not_inbag k).
Qed.

Lemma ex_reader_messages_ok (this : BagSplitter) (times : list Z) :
  Forall (λ t, _bag_start this ≤ t ≤ _bag_end this) times →
  Forall (λ m, m.1.1 ∈ connections (ex_reader times)
               ∧ topic m.1.1 ≠ bookkeeping_topic
               ∧ _bag_start this ≤ time_of m ≤ _bag_end this)
         (messages (ex_reader times)).
Proof.
  intros H. simpl. apply Forall_fmap. eapply Forall_impl; [exact H|].
  intros t Ht. simpl. split; [apply list_elem_of_here|]. split; [done|].
  exact Ht.
Qed.

Lemma split_rosbag_no_cutpoints_identity_witness :
  ∃ v σ' log,
    split_rosbag (ex_reader [0; sec 10; sec 100]) (Some [])
      ex_outbag false (initially ex_this ex_files)
    = (Return v, σ')
    ∧ outbag_ctr v = 1%nat
    ∧ logs σ' = [log]
    ∧ log_path log = numbered ex_outbag 1
    ∧ log_closed log = true
    ∧ Forall2 (same_message log) (messages (ex_reader [0; sec 10; sec 100]))
              (log_messages log).
Proof.
  apply (split_rosbag_no_cutpoints_identity
           (ex_reader [0; sec 10; sec 100]) ex_outbag false ex_this ex_files).
  - done.
  - reflexivity.
  - exact (ex_outbag_not_inbag 1).
  - exact (ex_outbag_free 1).
  - repeat constructor.
  - simpl. apply NoDup_singleton.
  - by vm_compute.
  - apply ex_reader_messages_ok. repeat constructor; by vm_compute.
Defined.

Lemma split_rosbag_cross_family_witness :
  (∃ e σ', split_rosbag (ex_reader [0; sec 100]) (Some [30%float]) ex_outdir true
             ex_state
           = (Raise e, σ') ∧ logs σ' = logs ex_state)
  ∧ ∃ σ', split_rosbag (ex_reader [0; sec 100]) (Some [30%float]) ex_outdir true
            ex_state
          = (Raise NotImplementedError, σ')
          ∧ logs σ' = logs ex_state ∧ disk σ' = disk ex_state.
Proof.
  destruct (split_rosbag_cross_family (ex_reader [0; sec 100]) (Some [30%float])
              ex_outdir true ex_state) as [H1 H2].
  - by vm_compute.
  - split; [exact H1|]. apply (H2 ex_state ex_state); by vm_compute.
Defined.

Lemma routing_map_rebuilt_without_bookkeeping_witness :
  bookkeeping_free
    (split_rosbag ex_reader_with_split_event (Some [30%float]) ex_outbag false
       ex_state).2.
Proof.
  apply (routing_map_rebuilt_without_bookkeeping ex_reader_with_split_event).
  constructor.
Defined.

(** * Further properties of the splitter *)

(** ** The numbered output paths *)

Section numbering.
Local Arguments String.append !_ _ / : simpl nomatch.

Lemma stem_suffix (p : Path) : stem p +:+ suffix p = name p.
Proof.
  unfold stem, suffix.
  destruct (split_name_cases (name p)) as [->|(l & r' & -> & Hn & _)]; simpl.
  - apply string_app_nil_r.
  - done.
Qed.

Lemma string_app_ne_self (a s : string) : a ≠ EmptyString → a +:+ s ≠ s.
Proof.
  intros Ha H. apply (f_equal String.length) in H.
  rewrite string_app_length in H. destruct a; [done|]. simpl in H. lia.
Qed.

Lemma numbered_ne_self (p : Path) (k : nat) : numbered p k ≠ p.
Proof.
  unfold numbered, numbered_name, replace_name. destruct p as [d n].
  intros [= H]. simpl in H.
  pose proof (stem_suffix (mkPath d n)) as Hn. simpl in Hn.
  rewrite <-Hn in H at 3. apply String.app_inj in H.
  by apply string_app_ne_self in H; [|apply pretty_nat_ne_nil].
Qed.

End numbering.

(** X1 — two output segments never share a path: the numbered paths of a
    base path are equal only for equal counters, and every one of them lies
    in the directory of the base path. *)
Theorem numbered_paths_distinct (base_path : Path) (j k : nat) :
  (numbered base_path j = numbered base_path k ↔ j = k)
  ∧ parent (numbered base_path k) = parent base_path.
Proof.
  split; [|done]. split; [apply numbered_inj|by intros ->].
Qed.

(** X2 — every numbered output path stands for the container family of the
    requested output path, so the writer class chosen from [outbag_path] at
    a rotation is the class chosen from the first numbered path, and the
    reader/writer comparison made once for the first path holds for every
    later one. *)
Theorem numbered_path_keeps_family (outbag_path : Path) (k : nat) (σ : State) :
  (get_writer_class (numbered outbag_path k) σ).1
  = (get_writer_class outbag_path σ).1
  ∧ _is_ros1_writer (self (get_writer_class (numbered outbag_path k) σ).2)
    = _is_ros1_writer (self (get_writer_class outbag_path σ).2)
  ∧ (suffix outbag_path ≠ EmptyString →
     suffix (numbered outbag_path k) = suffix outbag_path).
Proof.
  rewrite !get_writer_class_run. simpl. rewrite family_numbered.
  split; [done|]. split; [done|]. apply suffix_numbered.
Qed.

(** X3 — the guard against writing over the input compares the numbered
    path, never the requested one: a numbered path always differs from its
    base path, so asking for the input path itself as [outbag_path] is not
    refused as a collision. *)
Theorem same_path_request_not_refused (σ : State) (k : nat) (force_out : bool)
    (q : Path) :
  numbered (_inbag (self σ)) k ≠ _inbag (self σ)
  ∧ (_check_export_path (numbered (_inbag (self σ)) k) force_out σ).1
    ≠ Raise (FileExistsError SameAsInput q).
Proof.
  split; [apply numbered_ne_self|].
  unfold _check_export_path. rewrite bind_get.
  rewrite bool_decide_false by apply numbered_ne_self.
  destruct (exists_ _ _ && negb force_out); [done|].
  destruct (exists_ _ _ && force_out); [|done].
  unfold delete_rosbag. rewrite bind_get. by repeat case_match.
Qed.

(** ** The validator does not look at the order of the cutpoints *)

(** X4 — [_check_cutoff_limits] checks each offset on its own: a list is
    accepted exactly when every rearrangement of it is, so offsets that are
    not in increasing order, or that repeat, pass validation; and the
    concatenation of any two lists is accepted exactly when each of them
    is. *)
Theorem check_cutoff_limits_order_free (σ : State) :
  (∀ l l' : list float,
     l ≡ₚ l' →
     _check_cutoff_limits (Some l) σ = (Return tt, σ)
     ↔ _check_cutoff_limits (Some l') σ = (Return tt, σ))
  ∧ (∀ l l' : list float,
       _check_cutoff_limits (Some (l ++ l')) σ = (Return tt, σ)
       ↔ _check_cutoff_limits (Some l) σ = (Return tt, σ)
         ∧ _check_cutoff_limits (Some l') σ = (Return tt, σ)).
Proof.
  split; intros l l'.
  - intros Hp. rewrite !check_cutoff_limits_iff. by rewrite Hp.
  - rewrite !check_cutoff_limits_iff. apply Forall_app.
Qed.

Lemma check_cutoff_limits_order_free_witness :
  (_check_cutoff_limits (Some [70; 30; 30]%float) ex_state = (Return tt, ex_state)
   ↔ _check_cutoff_limits (Some [30; 30; 70]%float) ex_state
     = (Return tt, ex_state))
  ∧ _check_cutoff_limits (Some [70; 30; 30]%float) ex_state = (Return tt, ex_state).
Proof.
  split.
  - apply (check_cutoff_limits_order_free ex_state).
    etrans; [apply Permutation_swap|]. apply Permutation_skip.
    apply Permutation_swap.
  - by vm_compute.
Defined.

(** ** Deleting a log *)

Lemma delete_rosbag_missing (σ : State) (p : Path) :
  disk σ !! p = None → delete_rosbag p σ = (Raise (ValueError p), σ).
Proof.
  intros Hp. unfold delete_rosbag. rewrite bind_get.
  unfold is_file, is_dir. by rewrite Hp.
Qed.

(** X5 — [delete_rosbag] succeeds exactly on a path that holds a log of one
    of the two layouts; the path is then gone, and deleting it a second time
    raises [ValueError]; on anything else, also a path that does not exist,
    it raises [ValueError] and changes nothing. *)
Theorem delete_rosbag_recognised_only (σ : State) (p : Path) :
  ((∃ n, disk σ !! p = Some n ∧ is_rosbag p n = true) →
   delete_rosbag p σ = (Return tt, set_disk (delete p) σ)
   ∧ (delete_rosbag p;; delete_rosbag p) σ
     = (Raise (ValueError p), set_disk (delete p) σ))
  ∧ (¬ (∃ n, disk σ !! p = Some n ∧ is_rosbag p n = true) →
     delete_rosbag p σ = (Raise (ValueError p), σ)).
Proof.
  split.
  - intros (n & Hn & Hr).
    assert (delete_rosbag p σ = (Return tt, set_disk (delete p) σ)) as Hdel
      by by rewrite (delete_rosbag_spec _ _ _ Hn), Hr.
    split; [done|]. erewrite bind_Return by exact Hdel.
    apply delete_rosbag_missing. simpl. apply lookup_delete_eq.
  - intros Hno. destruct (disk σ !! p) as [n|] eqn:Hn.
    + rewrite (delete_rosbag_spec _ _ _ Hn).
      destruct (is_rosbag p n) eqn:Hr; [|done]. destruct Hno. eauto.
    + by apply delete_rosbag_missing.
Qed.

Lemma delete_rosbag_recognised_only_witness :
  delete_rosbag ex_inbag ex_state = (Return tt, set_disk (delete ex_inbag) ex_state)
  ∧ delete_rosbag ex_outdir ex_state = (Raise (ValueError ex_outdir), ex_state).
Proof.
  split.
  - apply (delete_rosbag_recognised_only ex_state ex_inbag).
    exists RegularFile. split; by vm_compute.
  - apply (delete_rosbag_recognised_only ex_state ex_outdir).
    intros (n & Hn & _). by vm_compute in Hn.
Defined.
(** ** What a run that returns has done *)

Lemma add_writer_connection_inv w conn cm σ cm' σ' l0 :
  logs σ !! w = Some l0 →
  add_writer_connection w conn cm σ = (Return cm', σ') →
  if decide (topic conn = bookkeeping_topic) then cm' = cm ∧ σ' = σ
  else cm' = <[id conn := length (log_connections l0)]> cm
       ∧ σ' = set_logs (alter (log_add_connection (channel_of conn)) w) σ.
Proof.
  intros Hw H. unfold add_writer_connection in H. case_decide as Ht.
  - rewrite bool_decide_true in H by done. by inv_ret H.
  - rewrite bool_decide_false, bind_get in H by done. unfold channel_of.
    destruct (truthy _), (ext conn); try (by unfold raise in H);
      erewrite bind_Return in H by (by apply Writer_add_connection_run);
      by inv_ret H.
Qed.

Lemma for_in_add_writer_connection_inv w conns cm σ cm' σ' l0 :
  logs σ !! w = Some l0 →
  for_in conns (add_writer_connection w) cm σ = (Return cm', σ') →
  cm' = route (copied conns) (length (log_connections l0)) cm
  ∧ σ' = set_logs (alter (log_add_connections (channel_of <$> copied conns)) w) σ.
Proof.
  revert cm σ l0. induction conns as [|conn conns IH]; intros cm σ l0 Hw H;
    simpl in H.
  - inv_ret H. split; [done|]. symmetry. apply set_logs_id, list_alter_id.
    apply log_add_connections_nil.
  - inv_bind H. pose proof (add_writer_connection_inv _ _ _ _ _ _ _ Hw H0) as Hc.
    unfold copied. rewrite filter_cons. case_decide as Ht.
    + destruct Hc as [-> ->]. rewrite decide_False by (by intros ?).
      by apply IH.
    + destruct Hc as [-> ->]. rewrite decide_True by done.
      assert (logs (set_logs (alter (log_add_connection (channel_of conn)) w) σ) !! w
              = Some (log_add_connection (channel_of conn) l0)) as Hw'.
      { simpl. by rewrite list_lookup_alter, decide_True, Hw by done. }
      destruct (IH _ _ _ Hw' H) as [-> ->].
      simpl. rewrite length_app. simpl.
      replace (length (log_connections l0) + 1)%nat
        with (S (length (log_connections l0))) by lia.
      split; [done|]. rewrite set_logs_set_logs. apply set_logs_ext.
      rewrite list_alter_alter_eq. apply list_alter_ext; [|done].
      intros l _. simpl. by rewrite log_add_connections_cons.
Qed.

Lemma check_export_path_inv p force_out σ u σ1 :
  _check_export_path p force_out σ = (Return u, σ1) →
  self σ1 = self σ ∧ logs σ1 = logs σ
  ∧ p ≠ _inbag (self σ)
  ∧ disk σ1 !! p = None
  ∧ ∀ q, q ≠ p → disk σ1 !! q = disk σ !! q.
Proof.
  intros H.
  destruct (check_export_path_frame p force_out σ) as [Hs Hl].
  rewrite H in Hs, Hl. simpl in Hs, Hl. split; [done|]. split; [done|].
  unfold _check_export_path in H. rewrite bind_get in H.
  case_bool_decide as Hne; [by unfold raise in H|]. split; [done|].
  unfold exists_ in H.
  destruct (disk σ !! p) as [n|] eqn:Hn.
  - rewrite bool_decide_true in H by eauto. simpl in H.
    destruct force_out; simpl in H; [|by unfold raise in H].
    rewrite (delete_rosbag_spec _ _ _ Hn) in H.
    destruct (is_rosbag p n); [|done]. injection H as _ <-. simpl.
    split; [apply lookup_delete_eq|]. intros q Hq. by apply lookup_delete_ne.
  - rewrite bool_decide_false in H by (by intros [? ?]). simpl in H.
    inv_ret H. done.
Qed.

Lemma split_step_inv reader outbag_path base_path force_out c (t : Z) d v σ v' σ' :
  split_step reader outbag_path base_path force_out (c, t, d) v σ = (Return v', σ') →
  (in_window (s_cliptstamp v) (e_cliptstamp v) t = true
   ∧ ∃ k, conn_map v !! id c = Some k ∧ v' = v
          ∧ σ' = set_logs (alter (log_write (k, t, d)) (writer v)) σ)
  ∨ (in_window (s_cliptstamp v) (e_cliptstamp v) t = false
     ∧ name base_path ≠ EmptyString
     ∧ ∃ t' e' σ1,
         timestamps v !! outbag_ctr v = Some t'
         ∧ int_add (_bag_start (self σ)) t' = Return e'
         ∧ _check_export_path (numbered base_path (outbag_ctr v + 1)) force_out σ
           = (Return tt, σ1)
         ∧ v' = {| timestamps := timestamps v;
                   outbag_ctr := outbag_ctr v + 1;
                   export_path := numbered base_path (outbag_ctr v + 1);
                   writer := length (logs σ);
                   conn_map := route (copied (connections reader)) 0 ∅;
                   s_cliptstamp := t;
                   e_cliptstamp := e' |}
         ∧ σ' = {| self := set_is_ros1_writer (family outbag_path) (self σ);
                   disk := <[numbered base_path (outbag_ctr v + 1) :=
                               node_of_log (writer_class outbag_path)
                                 (numbered base_path (outbag_ctr v + 1))]> (disk σ1);
                   logs := alter log_close (writer v) (logs σ)
                           ++ [log_add_connections
                                 (channel_of <$> copied (connections reader))
                                 (new_log (writer_class outbag_path)
                                    (numbered base_path (outbag_ctr v + 1)))] |}).
Proof.
  unfold split_step. intros H.
  fold (in_window (s_cliptstamp v) (e_cliptstamp v) t) in H.
  destruct (in_window (s_cliptstamp v) (e_cliptstamp v) t) eqn:Hin.
  - left. split; [done|].
    unfold getkey in H. destruct (conn_map v !! id c) as [k|]; [|by unfold raise in H].
    rewrite bind_mret in H. unfold Writer_write in H. rewrite bind_modify in H.
    inv_ret H. eauto.
  - right. split; [done|].
    rewrite bind_get in H. unfold getitem in H.
    replace (outbag_ctr v + 1 - 1)%nat with (outbag_ctr v) in H by lia.
    destruct (timestamps v !! outbag_ctr v) as [t'|]; [|by unfold raise in H].
    rewrite bind_mret in H.
    destruct (int_add (_bag_start (self σ)) t') as [e'|err] eqn:He;
      [|by erewrite bind_of_result_Raise in H by reflexivity].
    erewrite bind_of_result_Return in H by reflexivity.
    destruct (decide (name base_path = EmptyString)) as [Hname|Hname];
      [by erewrite bind_Raise in H by by apply with_name_empty|].
    split; [done|].
    erewrite bind_Return in H by by apply with_name_run.
    fold (numbered base_path (outbag_ctr v + 1)) in H.
    destruct (_check_export_path (numbered base_path (outbag_ctr v + 1)) force_out σ)
      as [[[]|e] σ1] eqn:Hc; [|by erewrite bind_Raise in H by exact Hc].
    erewrite bind_Return in H by exact Hc.
    destruct (check_export_path_inv _ _ _ _ _ Hc) as (Hself & Hlogs & _).
    unfold Writer_close at 1 in H. rewrite bind_modify in H.
    erewrite bind_Return in H by apply get_writer_class_run.
    unfold Writer_new at 1 in H. rewrite bind_unfold in H. simpl in H.
    rewrite length_alter in H.
    unfold Writer_open at 1 in H. rewrite bind_unfold in H. simpl in H.
    rewrite lookup_app_r in H by (by rewrite length_alter).
    rewrite length_alter, Nat.sub_diag in H. simpl in H.
    inv_bind H. inv_ret H.
    eapply for_in_add_writer_connection_inv in H0 as [-> ->]; cycle 1.
    { simpl. rewrite lookup_app_r by (by rewrite length_alter).
      by rewrite length_alter, Nat.sub_diag. }
    exists t', e', σ1. split; [done|]. split; [done|]. split; [done|].
    rewrite Hlogs. simpl. split; [done|].
    unfold set_logs. simpl. rewrite Hself, Hlogs. f_equal.
    rewrite <-(Nat.add_0_r (length (logs σ))) at 1.
    rewrite <-(length_alter log_close (logs σ) (writer v)).
    by rewrite alter_app_r.
Qed.

Lemma split_rosbag_inv reader ts outbag_path force_out σ v σ' :
  split_rosbag reader ts outbag_path force_out σ = (Return v, σ') →
  ∃ l e0 σ1 σ2 σl,
    ts = Some l
    ∧ _check_cutoff_limits (Some l) σ = (Return tt, σ)
    ∧ name outbag_path ≠ EmptyString
    ∧ family (_inbag (self σ)) = family outbag_path
    ∧ _check_export_path (numbered outbag_path 1) force_out σ = (Return tt, σ1)
    ∧ first_bound (self σ) l = Return e0
    ∧ _bag_start (self σ2) = _bag_start (self σ)
    ∧ disk σ2 = <[numbered outbag_path 1 :=
                    node_of_log (writer_class outbag_path) (numbered outbag_path 1)]>
                  (disk σ1)
    ∧ logs σ2 = logs σ ++ [opened_log reader outbag_path 1]
    ∧ for_in (messages reader)
        (split_step reader outbag_path outbag_path force_out)
        {| timestamps := cutpoints_ns (self σ) l; outbag_ctr := 1;
           export_path := numbered outbag_path 1; writer := length (logs σ);
           conn_map := route (copied (connections reader)) 0 ∅;
           s_cliptstamp := _bag_start (self σ);
           e_cliptstamp := e0 |} σ2
      = (Return v, σl)
    ∧ σ' = set_logs (alter log_close (writer v)) σl.
Proof.
  intros H.
  destruct (check_cutoff_limits_cases ts σ) as [Hv|[e Hv]];
    [|by unfold split_rosbag in H; erewrite bind_Raise in H by exact Hv].
  destruct (decide (name outbag_path = EmptyString)) as [Hname|Hname].
  { unfold split_rosbag in H. erewrite bind_Return in H by exact Hv.
    rewrite bind_get in H.
    erewrite bind_Return in H by apply get_reader_class_run.
    by erewrite bind_Raise in H by by apply with_name_empty. }
  rewrite split_rosbag_first_path in H by done.
  destruct (_check_export_path (numbered outbag_path 1) force_out σ)
    as [[[]|e] σ1] eqn:Hc; cycle 1.
  { by erewrite bind_Raise in H
      by (rewrite check_export_path_set_self, Hc by done; reflexivity). }
  erewrite bind_Return in H
    by (rewrite check_export_path_set_self, Hc by done; reflexivity).
  destruct (check_export_path_inv _ _ _ _ _ Hc) as (Hself & Hlogs & _).
  erewrite bind_Return in H by apply get_writer_class_run.
  rewrite bind_get, family_numbered in H. simpl in H.
  case_bool_decide as Hfam; [by unfold raise in H|].
  unfold Writer_new at 1 in H. rewrite bind_unfold in H. simpl in H.
  unfold Writer_open at 1 in H. rewrite bind_unfold in H. simpl in H.
  rewrite lookup_app_r in H by done. rewrite Nat.sub_diag in H. simpl in H.
  inv_bind H.
  eapply for_in_add_writer_connection_inv in H0; cycle 1.
  { simpl. rewrite lookup_app_r by done. by rewrite Nat.sub_diag. }
  destruct H0 as [? ?]; subst.
  destruct ts as [l|]; [|by unfold raise in H]. simpl in H.
  rewrite bind_mret in H. unfold getitem in H.
  rewrite Hself in H. simpl in H. fold (cutpoints_ns (self σ) l) in H.
  destruct (first_bound (self σ) l) as [e0|err] eqn:He0; unfold first_bound in He0;
    destruct (cutpoints_ns (self σ) l !! 0%nat) as [t0|] eqn:Ht0;
    try (by unfold raise in H); rewrite bind_mret in H;
    [|by erewrite bind_of_result_Raise in H by exact He0].
  erewrite bind_of_result_Return in H by exact He0.
  inv_bind H.
  unfold Writer_close in H. rewrite bind_modify in H. inv_ret H.
  eexists l, e0, σ1, _, _. split; [done|].
  split; [done|]. split; [done|].
  split; [by injection Hfam|].
  split; [done|]. split; [by unfold first_bound; rewrite Ht0|].
  split; [|split; [|split; [|split; [|reflexivity]]]]; cycle 3.
  - rewrite Hlogs in H0. exact H0.
  - simpl. by rewrite Hself.
  - done.
  - simpl. rewrite Hlogs.
    rewrite <-(Nat.add_0_r (length (logs σ))) at 1. by rewrite alter_app_r.
Qed.

Lemma split_step_segment_state reader outbag_path force_out T start done m
    v σ v' σ' :
  split_step reader outbag_path outbag_path force_out m v σ = (Return v', σ') →
  segment_state reader outbag_path T start done v σ →
  segment_state reader outbag_path T start (done ++ [m]) v' σ'.
Proof.
  destruct m as [[c t] d]. intros Hstep
    (pre & cur & kept & te & Hlogs & Hw & Hctr & HT & Hstart & Hte & He & Hcm
     & Hpre & Hcur & Hpaths & Hpath & Hdisk & Hbounds & Hbound & Hsub & Hkept
     & Hconcat & Hlen).
  apply split_step_inv in Hstep
    as [(Hin & k & Hk & -> & ->)
       |(Hout & _ & t' & e' & σ1 & Ht' & He' & Hc & -> & ->)].
  - exists pre, (log_write (k, t, d) cur), (kept ++ [(c, t, d)]), te.
    rewrite Hcm in Hk. simpl. rewrite Hlogs, Hw.
    rewrite <-(Nat.add_0_r (length pre)) at 1. rewrite alter_app_r. simpl.
    split_and!; try done.
    + destruct Hbound as (e & He2 & Hall). exists e. split; [done|].
      simpl. apply Forall_app. split; [done|].
      constructor; [|done]. simpl.
      assert (e = e_cliptstamp v) as -> by congruence.
      unfold in_window in Hin. by apply andb_true_iff in Hin as [_ ?].
    + by apply sublist_app.
    + apply Forall_app. split; [done|]. constructor; [|done]. simpl.
      by exists k.
    + rewrite fmap_app, app_assoc, Hconcat. simpl. f_equal.
      unfold routed. simpl. by rewrite Hk.
    + rewrite !length_app. simpl. lia.
  - destruct (check_export_path_inv _ _ _ _ _ Hc) as (_ & _ & _ & _ & Hother).
    exists (pre ++ [log_close cur]),
      (log_add_connections (channel_of <$> copied (connections reader))
         (new_log (writer_class outbag_path)
            (numbered outbag_path (outbag_ctr v + 1)))),
      kept, t'.
    simpl. rewrite Hlogs, Hw, Hctr.
    rewrite <-(Nat.add_0_r (length pre)) at 1. rewrite alter_app_r. simpl.
    rewrite !length_app. simpl.
    replace (length pre + 1)%nat with (S (length pre)) by lia.
    replace (S (length pre) + 1)%nat with (S (S (length pre))) by lia.
    split_and!; try done.
    + by rewrite <-HT, <-Hctr.
    + by rewrite <-Hstart.
    + apply Forall_app. split; [done|]. by constructor.
    + rewrite fmap_app, seq_S, fmap_app, Hpaths. simpl. by rewrite Hpath.
    + intros k' Hk'.
      destruct (decide (k' = S (S (length pre)))) as [->|Hne].
      * apply lookup_insert_eq.
      * rewrite lookup_insert_ne by (intros Heq%numbered_inj; lia).
        rewrite Hother by (intros Heq%numbered_inj; lia).
        apply Hdisk. lia.
    + rewrite (take_S_r _ _ te) by done. apply Forall2_app; [done|].
      by constructor.
    + exists e'. split; [by rewrite <-Hstart|]. by constructor.
    + by apply sublist_inserts_r.
    + rewrite fmap_app, concat_app. simpl. by rewrite !app_nil_r.
    + lia.
Qed.

Lemma for_in_split_step_segment_state reader outbag_path force_out T start msgs
    done v σ v' σ' :
  for_in msgs (split_step reader outbag_path outbag_path force_out) v σ
  = (Return v', σ') →
  segment_state reader outbag_path T start done v σ →
  segment_state reader outbag_path T start (done ++ msgs) v' σ'.
Proof.
  revert done v σ. induction msgs as [|m msgs IH]; intros done v σ H Hst;
    simpl in H.
  - inv_ret H. by rewrite app_nil_r.
  - inv_bind H. rewrite (assoc_L _ done [m] msgs : done ++ m :: msgs = _).
    eapply IH; [exact H|]. by eapply split_step_segment_state.
Qed.

(** A run that returns, started with no writer, ends in a segment state
    whose current log is then closed. *)
Lemma split_rosbag_segment_state reader ts outbag_path force_out σ v σ' :
  logs σ = [] →
  split_rosbag reader ts outbag_path force_out σ = (Return v, σ') →
  ∃ l σl,
    ts = Some l
    ∧ segment_state reader outbag_path (cutpoints_ns (self σ) l)
        (_bag_start (self σ)) (messages reader) v σl
    ∧ σ' = set_logs (alter log_close (writer v)) σl.
Proof.
  intros Hnil H.
  apply split_rosbag_inv in H
    as (l & e0 & σ1 & σ2 & σl & -> & _ & _ & _ & Hc & He0 & Hstart & Hdisk & Hlogs
        & Hloop & ->).
  exists l, σl. split; [done|]. split; [|done].
  eapply (for_in_split_step_segment_state _ _ _ _ _ _ []); [exact Hloop|].
  rewrite Hnil in Hlogs. simpl in Hlogs.
  unfold first_bound in He0.
  destruct (cutpoints_ns (self σ) l !! 0%nat) as [t0|] eqn:Ht0; [|done].
  exists [], (opened_log reader outbag_path 1), [], t0.
  rewrite Hnil. simpl. split_and!; try done.
  - intros k Hk. assert (k = 1%nat) as -> by lia.
    rewrite Hdisk. apply lookup_insert_eq.
  - exists e0. split; [done|]. constructor.
Qed.

Lemma NoDup_fmap_elem_inj {A B} (f : A → B) (l : list A) (x y : A) :
  NoDup (f <$> l) → x ∈ l → y ∈ l → f x = f y → x = y.
Proof.
  induction l as [|a l IH]; intros Hnd Hx Hy Hf; [by apply elem_of_nil in Hx|].
  rewrite fmap_cons in Hnd. apply NoDup_cons in Hnd as [Ha Hnd].
  apply elem_of_cons in Hx as [->|Hx]; apply elem_of_cons in Hy as [->|Hy].
  - done.
  - destruct Ha. rewrite Hf. by apply list_elem_of_fmap_2.
  - destruct Ha. rewrite <-Hf. by apply list_elem_of_fmap_2.
  - by apply IH.
Qed.

(** A connection of the source that the routing map knows is routed to the
    channel that carries it. *)
Lemma route_resolves conns c k :
  NoDup (id <$> conns) → c ∈ conns →
  route (copied conns) 0 ∅ !! id c = Some k →
  (channel_of <$> copied conns) !! k = Some (channel_of c).
Proof.
  intros Hnd Hc Hk.
  assert (id c ∈ id <$> copied conns) as Hin.
  { destruct (decide (id c ∈ id <$> copied conns)) as [|Hnot]; [done|].
    by rewrite route_lookup_notin, lookup_empty in Hk. }
  apply list_elem_of_fmap in Hin as (c' & Hid & Hc').
  pose proof Hc' as Hc''. apply list_elem_of_filter in Hc'' as [Ht Hcc].
  assert (c' = c) as -> by (by eapply NoDup_fmap_elem_inj).
  destruct (route_channel_of conns ∅ c) as (k' & Hk' & Hch); try done.
  congruence.
Qed.

Lemma log_events_concat chs (ls : list OutLog) :
  Forall (λ l, log_connections l = chs) ls →
  concat (log_events <$> ls)
  = (λ m : nat * Z * bytes, (chs !! m.1.1, m.1.2, m.2))
      <$> concat (log_messages <$> ls).
Proof.
  induction 1 as [|l ls Hl _ IH]; [done|]. rewrite !fmap_cons. cbn [concat].
  rewrite fmap_app, IH. unfold log_events. by rewrite Hl.
Qed.

Lemma segment_state_closed_logs reader outbag_path T start done v σ :
  segment_state reader outbag_path T start done v σ →
  ∃ pre cur, alter log_close (writer v) (logs σ) = pre ++ [log_close cur]
             ∧ logs σ = pre ++ [cur] ∧ outbag_ctr v = S (length pre).
Proof.
  intros (pre & cur & kept & te & Hlogs & Hw & Hctr & _).
  exists pre, cur. rewrite Hlogs, Hw. split; [|done].
  rewrite <-(Nat.add_0_r (length pre)) at 1. by rewrite alter_app_r.
Qed.

(** ** The output of a run that returns *)

(** X6 — when [split_rosbag] returns, the messages of the output logs, read
    in the order of the logs, are source messages in source order, each
    with its time and payload unchanged and on the channel that carries its
    connection: nothing is duplicated, reordered or altered; and exactly
    [outbag_ctr - 1] source messages, one for each rotation, are in no
    log. *)
Theorem split_rosbag_writes_in_order (reader : Reader) (ts : option (list float))
    (outbag_path : Path) (force_out : bool) (σ : State) (v : Locals)
    (σ' : State) :
  logs σ = [] →
  NoDup (id <$> connections reader) →
  Forall (λ m, m.1.1 ∈ connections reader) (messages reader) →
  split_rosbag reader ts outbag_path force_out σ = (Return v, σ') →
  written_events σ' `sublist_of` (source_event <$> messages reader)
  ∧ (length (written_events σ') + (outbag_ctr v - 1)
     = length (messages reader))%nat.
Proof.
  intros Hnil Hnd Hconns Hrun.
  destruct (split_rosbag_segment_state _ _ _ _ _ _ _ Hnil Hrun)
    as (l & σl & -> & Hst & ->).
  destruct Hst
    as (pre & cur & kept & te & Hlogs & Hw & Hctr & _ & _ & _ & _ & _
        & Hpre & Hcur & _ & _ & _ & _ & _ & Hsub & Hkept & Hconcat & Hlen).
  assert (written_events (set_logs (alter log_close (writer v)) σl)
          = source_event <$> kept) as ->.
  { unfold written_events. simpl. rewrite Hlogs, Hw.
    rewrite <-(Nat.add_0_r (length pre)) at 1. rewrite alter_app_r. simpl.
    rewrite (log_events_concat (channel_of <$> copied (connections reader))).
    - rewrite fmap_app, concat_app. simpl. rewrite app_nil_r, Hconcat.
      rewrite <-list_fmap_compose. apply list_fmap_ext.
      intros i [[c t] d] Hi. simpl.
      assert ((c, t, d) ∈ kept) as Hin by (by eapply list_elem_of_lookup_2).
      unfold source_event, routed. simpl. f_equal. f_equal.
      rewrite Forall_forall in Hkept, Hconns.
      destruct (Hkept _ Hin) as [k Hk]. simpl in Hk. rewrite Hk. simpl.
      apply route_resolves; try done.
      apply (Hconns (c, t, d)). by eapply elem_of_sublist.
    - apply Forall_app. split.
      + eapply Forall_impl; [exact Hpre|]. by intros ? [_ [? _]].
      + constructor; [|done]. simpl. by destruct Hcur. }
  split; [by apply fmap_sublist|]. rewrite length_fmap. lia.
Qed.

(** X7 — when [split_rosbag] returns, every output log it opened has been
    closed. *)
Theorem split_rosbag_closes_every_log (reader : Reader) (ts : option (list float))
    (outbag_path : Path) (force_out : bool) (σ : State) (v : Locals)
    (σ' : State) :
  logs σ = [] →
  split_rosbag reader ts outbag_path force_out σ = (Return v, σ') →
  Forall (λ l, log_closed l = true) (logs σ')
  ∧ length (logs σ') = outbag_ctr v.
Proof.
  intros Hnil Hrun.
  destruct (split_rosbag_segment_state _ _ _ _ _ _ _ Hnil Hrun)
    as (l & σl & -> & Hst & ->).
  destruct (segment_state_closed_logs _ _ _ _ _ _ _ Hst)
    as (pre & cur & Halter & Hlogs & Hctr).
  destruct Hst as (pre' & cur' & kept & te & Hlogs' & _ & _ & _ & _ & _ & _ & _
                   & Hpre & _).
  rewrite Hlogs in Hlogs'. apply app_inj_tail in Hlogs' as [<- <-].
  simpl. rewrite Halter. split.
  - apply Forall_app. split.
    + eapply Forall_impl; [exact Hpre|]. by intros ? [? _].
    + by constructor.
  - rewrite length_app. simpl. lia.
Qed.

(** X8 — when [split_rosbag] returns, every output log has the same
    channel table, the source connections off the bookkeeping topic, each
    carried verbatim and in source order, and every log is of the writer
    class of the requested output path. *)
Theorem split_rosbag_copies_channel_table (reader : Reader)
    (ts : option (list float)) (outbag_path : Path) (force_out : bool)
    (σ : State) (v : Locals) (σ' : State) :
  logs σ = [] →
  split_rosbag reader ts outbag_path force_out σ = (Return v, σ') →
  Forall (copy_of_source reader outbag_path) (logs σ').
Proof.
  intros Hnil Hrun.
  destruct (split_rosbag_segment_state _ _ _ _ _ _ _ Hnil Hrun)
    as (l & σl & -> & Hst & ->).
  destruct (segment_state_closed_logs _ _ _ _ _ _ _ Hst)
    as (pre & cur & Halter & Hlogs & Hctr).
  destruct Hst as (pre' & cur' & kept & te & Hlogs' & _ & _ & _ & _ & _ & _ & _
                   & Hpre & Hcur & _).
  rewrite Hlogs in Hlogs'. apply app_inj_tail in Hlogs' as [<- <-].
  simpl. rewrite Halter. apply Forall_app. split.
  - eapply Forall_impl; [exact Hpre|]. by intros ? [_ ?].
  - by constructor.
Qed.

(** X9 — when [split_rosbag] returns, the output logs are, in order, at the
    numbered paths 1 to [outbag_ctr], and each of these paths holds on disk
    the layout of the requested family, whatever was there before. *)
Theorem split_rosbag_outputs_on_disk (reader : Reader) (ts : option (list float))
    (outbag_path : Path) (force_out : bool) (σ : State) (v : Locals)
    (σ' : State) :
  logs σ = [] →
  split_rosbag reader ts outbag_path force_out σ = (Return v, σ') →
  log_path <$> logs σ' = numbered outbag_path <$> seq 1 (outbag_ctr v)
  ∧ ∀ k, (1 ≤ k ≤ outbag_ctr v)%nat →
         disk σ' !! numbered outbag_path k
         = Some (node_of_log (writer_class outbag_path) (numbered outbag_path k)).
Proof.
  intros Hnil Hrun.
  destruct (split_rosbag_segment_state _ _ _ _ _ _ _ Hnil Hrun)
    as (l & σl & -> & Hst & ->).
  destruct (segment_state_closed_logs _ _ _ _ _ _ _ Hst)
    as (pre & cur & Halter & Hlogs & Hctr).
  destruct Hst as (pre' & cur' & kept & te & Hlogs' & _ & _ & _ & _ & _ & _ & _
                   & _ & _ & Hpaths & Hpath & Hdisk & _).
  rewrite Hlogs in Hlogs'. apply app_inj_tail in Hlogs' as [<- <-].
  simpl. rewrite Halter, Hctr. split; [|exact Hdisk].
  rewrite fmap_app, seq_S, fmap_app, Hpaths. simpl. by rewrite Hpath.
Qed.

(** X10 — when [split_rosbag] returns, at most [len(cutpoints) + 1] logs
    were opened, and no message of the [k]-th output log is later than the
    bound that the code computes for it: [start_time] plus the [k]-th
    entry of the cutpoint list extended with [end_time], a sum that is
    rounded to a double when the entry is a float and against which the
    message time is compared exactly; whatever the order of the
    cutpoints. *)
Theorem split_rosbag_respects_upper_bounds (reader : Reader)
    (l : list float) (outbag_path : Path) (force_out : bool)
    (σ : State) (v : Locals) (σ' : State) :
  logs σ = [] →
  split_rosbag reader (Some l) outbag_path force_out σ = (Return v, σ') →
  (outbag_ctr v ≤ length l + 1)%nat
  ∧ Forall2 (within_bound (_bag_start (self σ))) (logs σ')
            (take (outbag_ctr v) (cutpoints_ns (self σ) l)).
Proof.
  intros Hnil Hrun.
  destruct (split_rosbag_segment_state _ _ _ _ _ _ _ Hnil Hrun)
    as (l' & σl & [= <-] & Hst & ->).
  destruct (segment_state_closed_logs _ _ _ _ _ _ _ Hst)
    as (pre & cur & Halter & Hlogs & Hctr).
  destruct Hst as (pre' & cur' & kept & te & Hlogs' & _ & _ & _ & _ & Hte & _
                   & _ & _ & _ & _ & _ & _ & Hbounds & Hbound & _).
  rewrite Hlogs in Hlogs'. apply app_inj_tail in Hlogs' as [<- <-].
  simpl. rewrite Halter, Hctr. split.
  - apply lookup_lt_Some in Hte. rewrite cutpoints_ns_length in Hte. lia.
  - rewrite (take_S_r _ _ te) by done. apply Forall2_app; [done|].
    by constructor.
Qed.

(** ** Refusing to start *)

(** X11 — when the validator accepts the cutpoints and the requested
    output path has a final component, and the first numbered output path
    is the input path, or exists while overwriting is off,
    [split_rosbag] ends with [FileExistsError] before any writer is
    created: the files and the output logs are as before. *)
Theorem split_rosbag_refuses_first_path (reader : Reader) (l : list float)
    (outbag_path : Path) (force_out : bool) (σ : State) :
  _check_cutoff_limits (Some l) σ = (Return tt, σ) →
  name outbag_path ≠ EmptyString →
  numbered outbag_path 1 = _inbag (self σ)
  ∨ (is_Some (disk σ !! numbered outbag_path 1) ∧ force_out = false) →
  ∃ σ',
    split_rosbag reader (Some l) outbag_path force_out σ
    = (Raise (FileExistsError
                (if decide (numbered outbag_path 1 = _inbag (self σ))
                 then SameAsInput else AlreadyExists)
                (numbered outbag_path 1)), σ')
    ∧ disk σ' = disk σ ∧ logs σ' = logs σ.
Proof.
  intros Hvalid Hname Hcase.
  assert (_check_export_path (numbered outbag_path 1) force_out σ
          = (Raise (FileExistsError
                      (if decide (numbered outbag_path 1 = _inbag (self σ))
                       then SameAsInput else AlreadyExists)
                      (numbered outbag_path 1)), σ)) as Hc.
  { unfold _check_export_path. rewrite bind_get.
    case_bool_decide as Hin; [by rewrite decide_True|].
    rewrite decide_False by done.
    destruct Hcase as [?|[Hex ->]]; [done|].
    unfold exists_. by rewrite bool_decide_true. }
  eexists. split; [by eapply split_rosbag_first_path_Raise|]. done.
Qed.

(** ** The number of output logs *)





(** ** Cross-family requests that end otherwise *)

(** C7, the claim as stated fails — the input is a single-file log and
    the requested output path is of the directory family.  When the first
    numbered output path exists and overwriting is off, [split_rosbag]
    ends with [FileExistsError], not with [NotImplementedError]; with
    overwriting on, the log at that path has been deleted by the time
    [NotImplementedError] is raised. *)
Lemma cross_family_first_path_taken :
  family (_inbag ex_this) ≠ family ex_outdir
  ∧ (split_rosbag (ex_reader [0; sec 100]) (Some []) ex_outdir false
       (initially ex_this ex_files_outdir_taken)).1
    = Raise (FileExistsError AlreadyExists (numbered ex_outdir 1))
  ∧ (let run := split_rosbag (ex_reader [0; sec 100]) (Some []) ex_outdir true
                  (initially ex_this ex_files_outdir_taken) in
     run.1 = Raise NotImplementedError
     ∧ is_Some (ex_files_outdir_taken !! numbered ex_outdir 1)
     ∧ disk run.2 !! numbered ex_outdir 1 = None).
Proof.
  split; [by vm_compute|]. split; [by vm_compute|].
  split; [by vm_compute|]. split; [|by vm_compute].
  exists (Directory ["part1_0.db3"%string]). by vm_compute.
Qed.

(** ** Which paths are checked, and when *)



(** ** The first offset that the validator refuses *)

(** X13 — when [_check_cutoff_limits] raises, it has changed nothing, the
    offsets before the offending one pass on their own, the exception is
    the one its loop body raises at the first offending offset, which is
    [InvalidTimestampError] with that offset in nanoseconds and the limit
    it is compared with, or [OverflowError] when [_bag_start] is beyond
    the doubles; and [split_rosbag] ends with the same exception with the
    files and the output logs untouched. *)
Theorem check_cutoff_limits_first_offender (σ : State) (l : list float)
    (e : exn) (σ' : State) :
  _check_cutoff_limits (Some l) σ = (Raise e, σ') →
  σ' = σ
  ∧ (∃ pre ts post,
       l = pre ++ ts :: post
       ∧ _check_cutoff_limits (Some pre) σ = (Return tt, σ)
       ∧ check_cutoff_body ts tt σ = (Raise e, σ)
       ∧ (e = OverflowError
          ∨ e = InvalidTimestampError AfterStart (ts * 1e9) (_bag_start (self σ))
          ∨ e = InvalidTimestampError BeforeEnd (ts * 1e9) (_bag_end (self σ))))
  ∧ (∀ reader outbag_path force_out,
       split_rosbag reader (Some l) outbag_path force_out σ = (Raise e, σ)).
Proof.
  intros Hrun.
  destruct (check_cutoff_limits_first_raise _ _ _ _ Hrun)
    as (-> & pre & ts & post & -> & Hpre & Hts).
  split; [done|]. split.
  - exists pre, ts, post. split; [done|].
    split; [by apply check_cutoff_limits_iff|]. split; [done|].
    revert Hts. unfold check_cutoff_body. rewrite bind_get.
    unfold float_add_int.
    destruct (float_of_int _) as [x|err] eqn:Hx.
    + erewrite !bind_of_result_Return by reflexivity.
      destruct (float_lt_int _ _); [intros [= <-]; by right; left|].
      erewrite !bind_of_result_Return by reflexivity.
      destruct (float_gt_int _ _); [intros [= <-]; by right; right|done].
    + erewrite bind_of_result_Raise by reflexivity. intros [= <-]. left.
      revert Hx. unfold float_of_int.
      destruct (is_infinity _); [by intros [= <-]|done].
  - intros reader outbag_path force_out. unfold split_rosbag.
    by erewrite bind_Raise by exact Hrun.
Qed.

(** ** The further properties at concrete recordings *)

Ltac run_returns :=
  match goal with
  | |- ∃ v σ', ?run = _ ∧ _ =>
      let Hrun := fresh "Hrun" in
      destruct run as [[?v|?e] ?σ'] eqn:Hrun;
      [ eexists _, _; split; [reflexivity|]
      | exfalso; vm_compute in Hrun; discriminate ]
  end.

Lemma ex_reader_connections_ok (times : list Z) :
  Forall (λ m, m.1.1 ∈ connections (ex_reader times)) (messages (ex_reader times)).
Proof.
  simpl. apply Forall_fmap, Forall_forall. intros t _. apply list_elem_of_here.
Qed.



Lemma check_cutoff_limits_first_offender_witness :
  split_rosbag (ex_reader ex_times) (Some [30; 101; 200]%float) ex_outbag false
    ex_state
  = (Raise (InvalidTimestampError BeforeEnd 1.01e11 (sec 100)), ex_state).
Proof.
  apply (check_cutoff_limits_first_offender ex_state [30; 101; 200]%float
           (InvalidTimestampError BeforeEnd 1.01e11 (sec 100)) ex_state).
  by vm_compute.
Defined.

Lemma split_rosbag_writes_in_order_witness :
  ∃ v σ',
    split_rosbag (ex_reader ex_times)
      (Some [30%float]) ex_outbag false ex_state = (Return v, σ')
    ∧ written_events σ'
        `sublist_of` (source_event
                        <$> messages (ex_reader ex_times))
      ∧ (length (written_events σ') + (outbag_ctr v - 1)
         = length (messages (ex_reader ex_times)))%nat.
Proof.
  run_returns.
  eapply (split_rosbag_writes_in_order
           (ex_reader ex_times) (Some [30%float])
           ex_outbag false ex_state).
  - reflexivity.
  - simpl. apply NoDup_singleton.
  - apply ex_reader_connections_ok.
  - exact Hrun.
Defined.

Lemma split_rosbag_closes_every_log_witness :
  ∃ v σ',
    split_rosbag (ex_reader ex_times)
      (Some [30%float]) ex_outbag false ex_state = (Return v, σ')
    ∧ Forall (λ l, log_closed l = true) (logs σ')
      ∧ length (logs σ') = outbag_ctr v.
Proof.
  run_returns.
  eapply (split_rosbag_closes_every_log
           (ex_reader ex_times) (Some [30%float])
           ex_outbag false ex_state); [reflexivity|exact Hrun].
Defined.

Lemma split_rosbag_copies_channel_table_witness :
  ∃ v σ',
    split_rosbag ex_reader_with_split_event (Some [15%float]) ex_outbag true
      (initially ex_this ex_files_taken) = (Return v, σ')
    ∧ Forall (copy_of_source ex_reader_with_split_event ex_outbag) (logs σ').
Proof.
  run_returns.
  eapply (split_rosbag_copies_channel_table ex_reader_with_split_event
           (Some [15%float]) ex_outbag true (initially ex_this ex_files_taken));
    [reflexivity|exact Hrun].
Defined.

Lemma split_rosbag_outputs_on_disk_witness :
  ∃ v σ',
    split_rosbag (ex_reader ex_times)
      (Some [30%float]) ex_outbag true (initially ex_this ex_files_taken)
    = (Return v, σ')
    ∧ log_path <$> logs σ' = numbered ex_outbag <$> seq 1 (outbag_ctr v)
      ∧ ∀ k, (1 ≤ k ≤ outbag_ctr v)%nat →
             disk σ' !! numbered ex_outbag k
             = Some (node_of_log (writer_class ex_outbag) (numbered ex_outbag k)).
Proof.
  run_returns.
  eapply (split_rosbag_outputs_on_disk
           (ex_reader ex_times) (Some [30%float])
           ex_outbag true (initially ex_this ex_files_taken));
    [reflexivity|exact Hrun].
Defined.

Lemma split_rosbag_respects_upper_bounds_witness :
  ∃ v σ',
    split_rosbag (ex_reader ex_times)
      (Some [70%float; 30%float]) ex_outbag false ex_state = (Return v, σ')
    ∧ (outbag_ctr v ≤ length [70%float; 30%float] + 1)%nat
      ∧ Forall2 (within_bound (_bag_start (self ex_state))) (logs σ')
                (take (outbag_ctr v) (cutpoints_ns (self ex_state) [70%float; 30%float])).
Proof.
  run_returns.
  eapply (split_rosbag_respects_upper_bounds
           (ex_reader ex_times) [70%float; 30%float]
           ex_outbag false ex_state); [reflexivity|exact Hrun].
Defined.

Lemma split_rosbag_refuses_first_path_witness :
  ∃ σ',
    split_rosbag (ex_reader [0; sec 100]) (Some [30%float]) ex_outbag false
      (initially ex_this ex_files_taken)
    = (Raise (FileExistsError
                (if decide (numbered ex_outbag 1 = _inbag ex_this)
                 then SameAsInput else AlreadyExists)
                (numbered ex_outbag 1)), σ')
    ∧ disk σ' = ex_files_taken ∧ logs σ' = [].
Proof.
  apply (split_rosbag_refuses_first_path (ex_reader [0; sec 100]) [30%float]
           ex_outbag false (initially ex_this ex_files_taken)).
  - by vm_compute.
  - done.
  - right. split; [|reflexivity]. exists RegularFile. by vm_compute.
Defined.

Lemma numbered_path_keeps_family_witness :
  suffix (numbered ex_outbag 7) = suffix ex_outbag.
Proof.
  apply (numbered_path_keeps_family ex_outbag 7 ex_state). by vm_compute.
Defined.
